(** * The windowed anomaly-detection core of the dashboard (app.py)

    The three detectors, the calculation window (a [collections.deque] with
    [maxlen]) and the simulation loop of [app.py] are embedded here as Rocq
    functions.

    The statistical detectors are embedded twice.

    Module [F64] has them on binary64 values: Rocq's primitive floats are
    IEEE 754 binary64 with rounding to nearest even, as NumPy's float64 is.
    [np.mean], [np.std] and [np.median] are written out there with NumPy's
    order of operations (the pairwise summation with eight accumulators of
    [np.sum], the median as the middle of the sorted data), so that rounding,
    overflow, infinities and NaN are those of the program.  What is stated
    about the scores that the program computes (the two recipes, reordering
    the series, constant series) is stated of [F64].

    The script (session state, window, buttons, loop) is embedded over the
    real numbers, with the detectors [detect_anomalies_zscore] and
    [detect_anomalies_mad] in exact arithmetic over the reductions of module
    [Np].  What is stated there is about the control flow and the bookkeeping
    of the script, which do not depend on how a float is rounded, and about
    the order of the scores against the threshold. *)

From Stdlib Require Import Floats.
From Stdlib Require Import String.
From Stdlib Require Import Reals Lra Lia ZArith Bool Arith.
From Stdlib Require Import List Permutation Sorted.
Import ListNotations.

Set Warnings "-inexact-float".

Open Scope R_scope.

(** ** Python results *)

Module Py.

(** The exceptions that the modelled code can meet. *)
Inductive exn : Type :=
| ValueError
| IndexError
| InvalidParameterError
| LibraryError (code : nat).

Inductive result (A : Type) : Type :=
| Ok (a : A)
| Raise (e : exn).

Arguments Ok {A} a.
Arguments Raise {A} e.

(** [xs[-1]]: the last element, [IndexError] on an empty sequence. *)
Fixpoint index_last {A : Type} (xs : list A) : result A :=
  match xs with
  | [] => Raise IndexError
  | [x] => Ok x
  | _ :: t => index_last t
  end.

End Py.
Import Py.

(** ** The NumPy reductions in exact arithmetic

    [np.mean], [np.std] and [np.median] from their documented meaning, over
    the real numbers: no rounding, no overflow, no NaN.  The reductions as
    float64 computes them are those of [F64.Np] below. *)

Module Np.

(** Comparison of two floats, as an element of a boolean array. *)
Definition Rgtb (a b : R) : bool := if Rlt_dec b a then true else false.
Definition Rltb (a b : R) : bool := if Rlt_dec a b then true else false.

(** [np.sum]. *)
Fixpoint sum (xs : list R) : R :=
  match xs with
  | [] => 0
  | x :: t => x + sum t
  end.

(** [np.mean]: the sum divided by the number of elements. *)
Definition mean (xs : list R) : R := sum xs / INR (length xs).

(** [np.var] with the default [ddof=0]: the mean of the squared deviations
    from the mean. *)
Definition var (xs : list R) : R :=
  let arrmean := mean xs in
  let x := map (fun a => a - arrmean) xs in
  mean (map (fun d => d * d) x).

(** [np.std]: the square root of [np.var]. *)
Definition std (xs : list R) : R := sqrt (var xs).

(** Sorting, for [np.median]. *)
Fixpoint insert (x : R) (l : list R) : list R :=
  match l with
  | [] => [x]
  | y :: t => if Rle_dec x y then x :: l else y :: insert x t
  end.

Fixpoint sort (l : list R) : list R :=
  match l with
  | [] => []
  | x :: t => insert x (sort t)
  end.

(** [np.median]: the middle element of the sorted data, the mean of the two
    middle elements when the length is even. *)
Definition median (xs : list R) : R :=
  let s := sort xs in
  let n := length xs in
  if Nat.even n
  then (nth (n / 2 - 1) s 0 + nth (n / 2) s 0) / 2
  else nth (n / 2) s 0.

End Np.

(** ** Anomaly detection algorithms

    First in exact arithmetic, as the script below uses them. *)

(** [detect_anomalies_zscore(series, threshold)], app.py lines 33-40. *)
Definition detect_anomalies_zscore (series : list R) (threshold : R)
  : list bool :=
  if (length series <? 2)%nat then repeat false (length series)
  else
    let mean := Np.mean series in
    let std := Np.std series in
    let z_scores := map (fun x => (x - mean) / (std + 1e-9)) series in
    map (fun z => Np.Rgtb (Rabs z) threshold) z_scores.

(** [detect_anomalies_mad(series, threshold)], app.py lines 42-49. *)
Definition detect_anomalies_mad (series : list R) (threshold : R)
  : list bool :=
  if (length series <? 2)%nat then repeat false (length series)
  else
    let median := Np.median series in
    let mad := Np.median (map (fun x => Rabs (x - median)) series) in
    let modified_z_scores :=
      map (fun x => 0.6745 * (x - median) / (mad + 1e-9)) series in
    map (fun z => Np.Rgtb (Rabs z) threshold) modified_z_scores.

(** scikit-learn's [IsolationForest(contamination, random_state=42)
    .fit_predict(X)] is a library call whose body is not part of the
    repository: the detector is parameterised by it.  It yields one label per
    sample, [-1] for an outlier and [1] for an inlier, or raises. *)
Definition fit_predict_t : Type := R -> list R -> result (list Z).

(** [detect_anomalies_isolation_forest(series, contamination)], app.py lines
    51-58.  There is no [try] around the library call. *)
Definition detect_anomalies_isolation_forest
    (fit_predict : fit_predict_t) (series : list R) (contamination : R)
  : result (list bool) :=
  if (length series <? 2)%nat then Ok (repeat false (length series))
  else
    let series_reshaped := series in
    match fit_predict contamination series_reshaped with
    | Raise e => Raise e
    | Ok preds => Ok (map (fun p => Z.eqb p (-1)) preds)
    end.

(** ** The detectors on binary64 values

    The same two detectors on the values that the program computes with:
    [float] is IEEE 754 binary64, and every operation below rounds as the
    float64 operations of NumPy do. *)

Module F64.

Local Open Scope float_scope.

(** *** The NumPy reductions on float64 arrays *)

Module Np.

(** The loop [res += a[i]] over the elements of [a], in their order. *)
Definition add_all (res : float) (a : list float) : float :=
  fold_left PrimFloat.add a res.

(** [r[j] += a[i + j]] for the eight accumulators. *)
Fixpoint add_lanes (r a : list float) : list float :=
  match r, a with
  | x :: r', y :: a' => (x + y) :: add_lanes r' a'
  | _, _ => r
  end.

(** [k] further blocks of eight elements are added onto the accumulators;
    what is left of the array is returned with them. *)
Fixpoint blocks (k : nat) (r a : list float) : list float * list float :=
  match k with
  | O => (r, a)
  | S k' => blocks k' (add_lanes r (firstn 8 a)) (skipn 8 a)
  end.

(** The unrolled loop of the pairwise summation, for 8 to 128 elements: eight
    accumulators take the elements of the full blocks of eight, they are
    added up as a tree, and the elements after the last full block are added
    one by one. *)
Definition pairwise_block (a : list float) : float :=
  let n := length a in
  let '(r, rest) := blocks (n / 8 - 1) (firstn 8 a) (skipn 8 a) in
  let r i := nth i r 0 in
  let res := ((r 0%nat + r 1%nat) + (r 2%nat + r 3%nat))
             + ((r 4%nat + r 5%nat) + (r 6%nat + r 7%nat)) in
  add_all res rest.

(** The pairwise summation behind [np.sum] on a contiguous float64 array:
    fewer than 8 elements are added from left to right, up to 128 go through
    the unrolled loop, and a longer array is cut in two at a multiple of 8
    near its middle.  The left-to-right loop starts from [-0.0], which leaves
    the first element as it is.  The fuel bounds the depth of the cuts; the
    length of the array is more than enough. *)
Fixpoint pairwise_sum (fuel : nat) (a : list float) : float :=
  let n := length a in
  if (n <? 8)%nat then add_all neg_zero a
  else if (n <=? 128)%nat then pairwise_block a
  else
    match fuel with
    | O => nan
    | S fuel' =>
        let n2 := (n / 2 - (n / 2) mod 8)%nat in
        pairwise_sum fuel' (firstn n2 a) + pairwise_sum fuel' (skipn n2 a)
    end.

(** [np.sum].  The start value of the reduction itself is a zero, which
    decides no more than the sign of a sum that is a zero. *)
Definition sum (a : list float) : float := pairwise_sum (length a) a.

(** The number of elements, as the float64 that the sum is divided by. *)
Definition count (a : list float) : float :=
  of_uint63 (Uint63.of_Z (Z.of_nat (length a))).

(** [np.mean]: the sum divided by the number of elements. *)
Definition mean (a : list float) : float := sum a / count a.

(** [np.std] with the default [ddof=0]: the deviations from the mean are
    squared, summed and divided by the number of elements, and the square
    root is taken. *)
Definition std (a : list float) : float :=
  let arrmean := mean a in
  let x := map (fun v => v - arrmean) a in
  let x := map (fun v => v * v) x in
  PrimFloat.sqrt (sum x / count a).

(** Sorting, for [np.median]. *)
Fixpoint insert (x : float) (l : list float) : list float :=
  match l with
  | [] => [x]
  | y :: t => if x <=? y then x :: l else y :: insert x t
  end.

Fixpoint sort (l : list float) : list float :=
  match l with
  | [] => []
  | x :: t => insert x (sort t)
  end.

(** [np.median]: the middle element of the sorted data, the mean of the two
    middle elements when the length is even; NaN as soon as one element is
    NaN.  (NumPy takes [np.mean] of the one or two middle elements; the mean
    of one element is the element.) *)
Definition median (a : list float) : float :=
  if existsb is_nan a then nan
  else
    let part := sort a in
    let n := length a in
    if Nat.even n
    then mean [nth (n / 2 - 1) part nan; nth (n / 2) part nan]
    else nth (n / 2) part nan.

End Np.

(** *** The detectors *)

(** [detect_anomalies_zscore(series, threshold)], app.py lines 33-40. *)
Definition detect_anomalies_zscore (series : list float) (threshold : float)
  : list bool :=
  if (length series <? 2)%nat then repeat false (length series)
  else
    let mean := Np.mean series in
    let std := Np.std series in
    let z_scores := map (fun x => (x - mean) / (std + 1e-9)) series in
    map (fun z => threshold <? abs z) z_scores.

(** [detect_anomalies_mad(series, threshold)], app.py lines 42-49. *)
Definition detect_anomalies_mad (series : list float) (threshold : float)
  : list bool :=
  if (length series <? 2)%nat then repeat false (length series)
  else
    let median := Np.median series in
    let mad := Np.median (map (fun x => abs (x - median)) series) in
    let modified_z_scores :=
      map (fun x => 0.6745 * (x - median) / (mad + 1e-9)) series in
    map (fun z => threshold <? abs z) modified_z_scores.

(** *** The specification's statistics, on binary64 values

    Written from the words of the specification, to be compared with the
    NumPy reductions above. *)



(** The order of binary64 values. *)
Definition fle (a b : float) : Prop := (a <=? b) = true.

(** [m] is the median of [xs]: with the values put in increasing order, the
    middle one, or the mean of the two middle ones for an even count.  NaN
    has no place in the order: the median of values with a NaN among them is
    NaN. *)
Definition is_median (xs : list float) (m : float) : Prop :=
  if existsb is_nan xs then m = nan
  else
    exists s,
      Permutation s xs /\ Sorted fle s /\
      m = if Nat.even (length xs)
          then (nth (length xs / 2 - 1) s nan + nth (length xs / 2) s nan) / 2
          else nth (length xs / 2) s nan.

End F64.

(** Two binary64 values that are the same up to the sign of a zero: [0.0]
    and [-0.0] compare equal and are told apart by no comparison. *)
Definition zeq (x y : spec_float) : Prop :=
  match x, y with
  | S754_zero _, S754_zero _ => True
  | _, _ => x = y
  end.

Definition feq (a b : float) : Prop := zeq (Prim2SF a) (Prim2SF b).

(** No element is NaN. *)
Definition no_nan (l : list float) : Prop :=
  Forall (fun x => is_nan x = false) l.


(** ** Reordering a series *)

(** Reordering a sequence by a permutation [p] of its indices: [p] has as
    many entries as the sequence and every index occurs in it; position [k] of
    the result holds element [p[k]] of the sequence. *)
Definition is_index_permutation (p : list nat) (n : nat) : bool :=
  (length p =? n)%nat && forallb (fun i => existsb (Nat.eqb i) p) (seq 0 n).

Definition permute {A : Type} (p : list nat) (xs : list A) (d : A) : list A :=
  map (fun i => nth i xs d) p.

(** ** The calculation window: [collections.deque] with [maxlen] *)

Record deque : Type := mkDeque {
  items : list R;
  maxlen : Z
}.

(** [d.append(x)]: the value is added on the right; when the deque is then
    longer than [maxlen], one element is removed on the left. *)
Definition append (x : R) (d : deque) : deque :=
  let l := items d ++ [x] in
  mkDeque (if (maxlen d <? Z.of_nat (length l))%Z then tl l else l) (maxlen d).

(** [deque(iterable, maxlen=n)]: [ValueError] for a negative [maxlen];
    otherwise the elements are appended one by one to an empty deque. *)
Definition deque_new (iterable : list R) (n : Z) : result deque :=
  if (n <? 0)%Z then Raise ValueError
  else Ok (fold_left (fun d x => append x d) iterable (mkDeque [] n)).

(** [d.clear()]. *)
Definition clear (d : deque) : deque := mkDeque [] (maxlen d).

(** The most recent [n] elements of a sequence. *)
Definition lastn {A : Type} (n : nat) (l : list A) : list A :=
  skipn (length l - n) l.

(** The two operations that the script performs on the window, and their
    effect on the deque: [data.append(x)], and the recreation of the deque
    with a new [maxlen] when the window size has changed (app.py lines
    88-89). *)
Inductive window_op : Type :=
| Push (x : R)
| Resize (new_capacity : Z).

Definition apply_op (o : window_op) (d : deque) : result deque :=
  match o with
  | Push x => Ok (append x d)
  | Resize n =>
      if negb (n =? maxlen d)%Z then deque_new (items d) n else Ok d
  end.

Fixpoint apply_ops (ops : list window_op) (d : deque) : result deque :=
  match ops with
  | [] => Ok d
  | o :: rest =>
      match apply_op o d with
      | Ok d' => apply_ops rest d'
      | Raise e => Raise e
      end
  end.

(** The values pushed by a sequence of operations, in push order. *)
Definition pushed (ops : list window_op) : list R :=
  flat_map (fun o => match o with Push x => [x] | Resize _ => [] end) ops.

Definition no_resize (ops : list window_op) : bool :=
  forallb (fun o => match o with Push _ => true | Resize _ => false end) ops.

(** ** Session state and the script *)

(** An entry of the anomaly log: the clock string of the detection and the
    value (the source formats both into one string). *)
Definition log_entry : Type := (string * R)%type.

(** [st.session_state], app.py lines 16-30. *)
Record session_state : Type := mkState {
  running : bool;
  data : deque;
  anomaly_log : list log_entry;
  price : R;
  all_data : list R;
  all_anomalies : list (Z * R);
  time_step : Z
}.

Definition initial_state : session_state :=
  mkState false (mkDeque [] 100) [] 100.0 [] [] 0.

Definition set_running (b : bool) (s : session_state) : session_state :=
  mkState b (data s) (anomaly_log s) (price s) (all_data s) (all_anomalies s)
          (time_step s).

Definition set_data (d : deque) (s : session_state) : session_state :=
  mkState (running s) d (anomaly_log s) (price s) (all_data s) (all_anomalies s)
          (time_step s).

Definition set_anomaly_log (l : list log_entry) (s : session_state)
  : session_state :=
  mkState (running s) (data s) l (price s) (all_data s) (all_anomalies s)
          (time_step s).

Definition set_price (p : R) (s : session_state) : session_state :=
  mkState (running s) (data s) (anomaly_log s) p (all_data s) (all_anomalies s)
          (time_step s).

Definition set_all_data (l : list R) (s : session_state) : session_state :=
  mkState (running s) (data s) (anomaly_log s) (price s) l (all_anomalies s)
          (time_step s).

Definition set_all_anomalies (l : list (Z * R)) (s : session_state)
  : session_state :=
  mkState (running s) (data s) (anomaly_log s) (price s) (all_data s) l
          (time_step s).

Definition set_time_step (t : Z) (s : session_state) : session_state :=
  mkState (running s) (data s) (anomaly_log s) (price s) (all_data s)
          (all_anomalies s) t.

(** Script code: it reads and writes the session state and may raise.  The
    session state outlives an exception, so the state is returned in both
    cases. *)
Definition M (A : Type) : Type := session_state -> result A * session_state.

Definition ret {A : Type} (a : A) : M A := fun s => (Ok a, s).

Definition bind {A B : Type} (m : M A) (k : A -> M B) : M B :=
  fun s =>
    match m s with
    | (Ok a, s') => k a s'
    | (Raise e, s') => (Raise e, s')
    end.

Definition get : M session_state := fun s => (Ok s, s).

Definition modify (f : session_state -> session_state) : M unit :=
  fun s => (Ok tt, f s).

Definition lift {A : Type} (r : result A) : M A := fun s => (r, s).

Declare Scope script_scope.
Delimit Scope script_scope with script.
Notation "x <- m ;; k" := (bind m (fun x => k))
  (at level 61, m at next level, right associativity) : script_scope.
Notation "m ;; k" := (bind m (fun _ => k))
  (at level 61, right associativity) : script_scope.
Open Scope script_scope.

(** The sidebar: which algorithm is selected, with the parameter whose slider
    is displayed for it (app.py lines 80-83 and 92-97). *)
Inductive method_t : Type :=
| Z_Score (threshold : R)
| Median_Absolute_Deviation (threshold : R)
| Isolation_Forest (contamination : R).

(** The widgets of one run of the script. *)
Record controls : Type := mkControls {
  start_button : bool;
  stop_button : bool;
  reset_button : bool;
  method : method_t;
  window_size : Z
}.

(** What [st.sidebar.slider(label, lo, hi, ...)] guarantees of its value. *)
Definition slider_range (lo hi v : Z) : Prop := (lo <= v <= hi)%Z.

(** The window slider of app.py line 85. *)
Definition window_size_in_range (c : controls) : Prop :=
  slider_range 10 500 (window_size c).

(** What one iteration of the loop draws from outside: the two normal draws,
    the uniform draw that decides whether there is a shock, and the clock. *)
Record tick_input : Type := mkTick {
  drift_draw : R;
  rand_draw : R;
  shock_draw : R;
  clock : string
}.

(** The three buttons, app.py lines 64-75. *)
Definition sidebar_buttons (c : controls) : M unit :=
  (if start_button c then modify (set_running true) else ret tt) ;;
  (if stop_button c then modify (set_running false) else ret tt) ;;
  (if reset_button c then
     modify (set_running false) ;;
     modify (fun s => set_data (clear (data s)) s) ;;
     modify (set_anomaly_log []) ;;
     modify (set_price 100.0) ;;
     modify (set_all_data []) ;;
     modify (set_all_anomalies []) ;;
     modify (set_time_step 0)
   else ret tt).

(** Recreation of the deque when the window size changes, app.py lines
    88-89. *)
Definition resize (new_size : Z) : M unit :=
  s <- get ;;
  if negb (new_size =? maxlen (data s))%Z then
    d <- lift (deque_new (items (data s)) new_size) ;;
    modify (set_data d)
  else ret tt.

Section Script.

(** The library call behind the Isolation Forest detector. *)
Variable fit_predict : fit_predict_t.

(** The detector selected in the sidebar, app.py lines 169-174. *)
Definition run_detector (m : method_t) (series : list R)
  : result (list bool) :=
  match m with
  | Z_Score threshold => Ok (detect_anomalies_zscore series threshold)
  | Median_Absolute_Deviation threshold =>
      Ok (detect_anomalies_mad series threshold)
  | Isolation_Forest contamination =>
      detect_anomalies_isolation_forest fit_predict series contamination
  end.

(** Data generation and the two appends, app.py lines 153-163. *)
Definition advance (i : tick_input) : M unit :=
  let drift := drift_draw i in
  let shock := if Np.Rltb (rand_draw i) 0.05 then shock_draw i else 0 in
  modify (fun s => set_price (price s + (drift + shock)) s) ;;
  modify (fun s => set_price (Rmax (price s) 10) s) ;;
  modify (fun s => set_data (append (price s) (data s)) s) ;;
  modify (fun s => set_all_data (all_data s ++ [price s]) s) ;;
  modify (fun s => set_time_step (time_step s + 1) s).

(** Anomaly detection, app.py lines 165-183.  The value returned is the
    detection result [anomalies], [None] when the detection block is
    skipped. *)
Definition detect_newest (c : controls) (i : tick_input)
  : M (option (list bool)) :=
  s <- get ;;
  let series := items (data s) in
  if (Z.of_nat (length series) >=? window_size c)%Z then
    anomalies <- lift (run_detector (method c) series) ;;
    newest <- lift (index_last anomalies) ;;
    (if newest : bool then
       x <- lift (index_last series) ;;
       modify (fun s => set_anomaly_log ((clock i, x) :: anomaly_log s) s) ;;
       modify (fun s =>
                 set_all_anomalies
                   (all_anomalies s ++ [((time_step s - 1)%Z, x)]) s) ;;
       modify (fun s =>
                 if (50 <? length (anomaly_log s))%nat
                 then set_anomaly_log (firstn 50 (anomaly_log s)) s
                 else s)
     else ret tt) ;;
    ret (Some anomalies)
  else ret None.

(** One iteration of the simulation loop, app.py lines 153-188.  Drawing the
    dashboard and sleeping do not touch the session state. *)
Definition loop_body (c : controls) (i : tick_input)
  : M (option (list bool)) :=
  advance i ;;
  detect_newest c i.

(** [while st.session_state.running: ...], for the iterations that take place
    before the next interaction ends the run. *)
Fixpoint main_loop (c : controls) (inputs : list tick_input) : M unit :=
  match inputs with
  | [] => ret tt
  | i :: rest =>
      s <- get ;;
      if running s then loop_body c i ;; main_loop c rest else ret tt
  end.

(** One run of the script, from the buttons to the loop. *)
Definition script (c : controls) (inputs : list tick_input) : M unit :=
  sidebar_buttons c ;;
  resize (window_size c) ;;
  main_loop c inputs.

(** A session: the script is run again at every interaction, on the state that
    the run before it left, whether that run ended by an exception or not. *)
Definition session (runs : list (controls * list tick_input))
  (s : session_state) : session_state :=
  fold_left (fun s r => snd (script (fst r) (snd r) s)) runs s.

End Script.

Close Scope script_scope.

(** A library call that performs scikit-learn's check of the
    [contamination] parameter, which must lie in (0, 0.5], and then labels
    every sample an inlier. *)
Definition checked_fit_predict : fit_predict_t :=
  fun contamination X =>
    if Np.Rltb 0 contamination && negb (Np.Rltb 0.5 contamination)
    then Ok (map (fun _ => 1%Z) X)
    else Raise InvalidParameterError.

(** ** A sample run

    The window slider at 10 and the MAD detector at 3.5, the Start button
    pressed.  A quiet iteration draws no drift and no shock; the last one
    jumps by 50. *)
Definition quiet : tick_input := mkTick 0 1 0 "12:00:00".

Definition jump : tick_input := mkTick 50 1 0 "12:00:01".

Definition demo_controls : controls :=
  mkControls true false false (Median_Absolute_Deviation 3.5) 10.

(** Four values at the floor followed by a spike. *)
Definition spike : list R := [10; 10; 10; 10; 100].

(** ** Invariants *)

(** A deque never holds more than [maxlen] elements. *)
Definition deque_ok (d : deque) : Prop :=
  (0 <= maxlen d)%Z /\ (Z.of_nat (length (items d)) <= maxlen d)%Z.

(** [l] is the end of [h]. *)
Definition suffix_of (l h : list R) : Prop := exists pre, h = pre ++ l.

(** An anomaly record points at its value in the full history. *)
Definition record_ok (history : list R) (r : Z * R) : Prop :=
  (0 <= fst r)%Z /\ nth_error history (Z.to_nat (fst r)) = Some (snd r).

(** The history and the anomaly records of a session state agree. *)
Definition history_ok (s : session_state) : Prop :=
  time_step s = Z.of_nat (length (all_data s)) /\
  Forall (record_ok (all_data s)) (all_anomalies s) /\
  StronglySorted Z.lt (map fst (all_anomalies s)).

(** ** The dashboard *)

(** [list(range(n))]. *)
Definition range (n : Z) : list Z := map Z.of_nat (seq 0 (Z.to_nat n)).

(** The traces of the chart: the value line, and the anomaly markers when
    there are any. *)
Record figure : Type := mkFigure {
  value_x : list Z;
  value_y : list R;
  anomaly_markers : option (list Z * list R)
}.

(** What the log placeholder shows: the entries, newest first, or the
    message that none has been detected yet. *)
Inductive log_display : Type :=
| LogText (entries : list log_entry)
| NoAnomaliesYet.

(** [draw_dashboard()], app.py lines 109-149: what it reads of the session
    state and hands to the chart and to the log placeholder.  The styling of
    the traces is left out. *)
Definition draw_dashboard (s : session_state) : figure * log_display :=
  let time_indices := range (time_step s) in
  let markers :=
    match all_anomalies s with
    | [] => None
    | _ :: _ => Some (List.split (all_anomalies s))
    end in
  let log :=
    match anomaly_log s with
    | [] => NoAnomaliesYet
    | _ :: _ => LogText (anomaly_log s)
    end in
  (mkFigure time_indices (all_data s) markers, log).

(** ** Invariants of a session *)

(** The window is within its capacity and holds the end of the history; no
    value is below the floor of 10; the log holds the values of the most
    recent 50 anomaly records, newest first. *)
Definition session_ok (s : session_state) : Prop :=
  deque_ok (data s) /\
  suffix_of (items (data s)) (all_data s) /\
  Forall (fun v => 10 <= v) (all_data s) /\
  10 <= price s /\
  map snd (anomaly_log s) = firstn 50 (rev (map snd (all_anomalies s))).

(** The two detectors that are computed by the script itself. *)
Definition is_statistical (m : method_t) : bool :=
  match m with
  | Z_Score _ | Median_Absolute_Deviation _ => true
  | Isolation_Forest _ => false
  end.

(** The controls of a later run in which no button is pressed and the
    selections are unchanged. *)
Definition same_selection (c : controls) : controls :=
  mkControls false false false (method c) (window_size c).

(** The number of flags raised in a detection result. *)
Definition flagged (result : list bool) : nat :=
  length (filter (fun b => b) result).

(** * Properties *)

(** ** Comparisons *)

Lemma Rgtb_true_iff (a b : R) : Np.Rgtb a b = true <-> a > b.
Proof.
  unfold Np.Rgtb. destruct (Rlt_dec b a) as [H | H]; split; intro K.
  - exact H.
  - reflexivity.
  - discriminate K.
  - contradiction.
Qed.

Lemma Rgtb_false_iff (a b : R) : Np.Rgtb a b = false <-> a <= b.
Proof.
  unfold Np.Rgtb. destruct (Rlt_dec b a) as [H | H]; split; intro K.
  - discriminate K.
  - lra.
  - lra.
  - reflexivity.
Qed.

(** ** Sorting, in exact arithmetic *)







(** ** The detectors, in exact arithmetic *)

Lemma short_series (series : list R) :
  (length series < 2)%nat -> (length series <? 2)%nat = true.
Proof. intro H. now apply Nat.ltb_lt. Qed.

Lemma long_series (series : list R) :
  (2 <= length series)%nat -> (length series <? 2)%nat = false.
Proof. intro H. apply Nat.ltb_ge. exact H. Qed.

(** Above the length guard both statistical detectors are one pass of a score
    function over the series. *)
Lemma zscore_unfold (series : list R) (threshold : R) :
  (2 <= length series)%nat ->
  detect_anomalies_zscore series threshold
  = map (fun x =>
           Np.Rgtb (Rabs ((x - Np.mean series) / (Np.std series + 1e-9)))
                   threshold) series.
Proof.
  intro H. unfold detect_anomalies_zscore.
  rewrite (long_series series H). cbv zeta. now rewrite map_map.
Qed.

Lemma mad_unfold (series : list R) (threshold : R) :
  (2 <= length series)%nat ->
  detect_anomalies_mad series threshold
  = map (fun x =>
           Np.Rgtb
             (Rabs (0.6745 * (x - Np.median series)
                    / (Np.median
                         (map (fun y => Rabs (y - Np.median series)) series)
                       + 1e-9)))
             threshold) series.
Proof.
  intro H. unfold detect_anomalies_mad.
  rewrite (long_series series H). cbv zeta. now rewrite map_map.
Qed.

(** C3.  On a series of fewer than two values (empty or a single element),
    each of the three detectors returns the all-false result of the length of
    the series, whatever the parameter and whatever the library call behind
    the Isolation Forest does. *)
Theorem short_series_all_false (fit_predict : fit_predict_t)
    (series : list R) (parameter : R) (Hlen : (length series < 2)%nat) :
  detect_anomalies_zscore series parameter = repeat false (length series) /\
  detect_anomalies_mad series parameter = repeat false (length series) /\
  detect_anomalies_isolation_forest fit_predict series parameter
  = Ok (repeat false (length series)).
Proof.
  unfold detect_anomalies_zscore, detect_anomalies_mad,
    detect_anomalies_isolation_forest.
  rewrite (short_series series Hlen). repeat split.
Qed.

Lemma short_series_all_false_witness :
  detect_anomalies_zscore [42] 3 = repeat false (length [42]) /\
  detect_anomalies_mad [42] 3 = repeat false (length [42]) /\
  detect_anomalies_isolation_forest (fun _ _ => Raise ValueError) [42] 3
  = Ok (repeat false (length [42])).
Proof.
  apply (short_series_all_false (fun _ _ => Raise ValueError) [42] 3).
  simpl. lia.
Defined.

(** ** Reordering the series *)

Lemma is_index_permutation_Permutation (p : list nat) (n : nat) :
  is_index_permutation p n = true -> Permutation p (seq 0 n).
Proof.
  unfold is_index_permutation. intro H.
  apply andb_prop in H. destruct H as [Hlen Hall].
  apply Nat.eqb_eq in Hlen.
  apply Permutation_sym, NoDup_Permutation_bis.
  - apply seq_NoDup.
  - rewrite length_seq. lia.
  - intros i Hi. rewrite forallb_forall in Hall.
    specialize (Hall i Hi). apply existsb_exists in Hall.
    destruct Hall as (j & Hj & Hij). apply Nat.eqb_eq in Hij. now subst.
Qed.

(** Every permutation of the indices passes the check. *)
Lemma Permutation_is_index_permutation (p : list nat) (n : nat) :
  Permutation p (seq 0 n) -> is_index_permutation p n = true.
Proof.
  intro H. unfold is_index_permutation. apply andb_true_intro. split.
  - apply Nat.eqb_eq. now rewrite (Permutation_length H), length_seq.
  - apply forallb_forall. intros i Hi. apply existsb_exists.
    exists i. split; [| apply Nat.eqb_refl].
    now apply (Permutation_in _ (Permutation_sym H)).
Qed.

Lemma map_nth_seq_all {A : Type} (xs : list A) (d : A) :
  map (fun i => nth i xs d) (seq 0 (length xs)) = xs.
Proof.
  induction xs as [| x t IH]; simpl; [reflexivity |].
  f_equal. rewrite <- seq_shift, map_map. exact IH.
Qed.

Lemma permute_Permutation {A : Type} (p : list nat) (xs : list A) (d : A) :
  Permutation p (seq 0 (length xs)) -> Permutation (permute p xs d) xs.
Proof.
  intro H. unfold permute.
  apply perm_trans with (map (fun i => nth i xs d) (seq 0 (length xs))).
  - now apply Permutation_map.
  - rewrite map_nth_seq_all. apply Permutation_refl.
Qed.

(** A pass of a function over the series commutes with the reordering. *)
Lemma permute_map {A B : Type} (f : A -> B) (p : list nat) (xs : list A)
    (d : A) (e : B) :
  Permutation p (seq 0 (length xs)) ->
  map f (permute p xs d) = permute p (map f xs) e.
Proof.
  intro H. unfold permute. rewrite map_map.
  apply map_ext_in. intros i Hi.
  assert (i < length xs)%nat as Hlt.
  { apply (Permutation_in _ H), in_seq in Hi. lia. }
  rewrite <- (map_nth f xs d i).
  apply nth_indep. now rewrite length_map.
Qed.

(** ** Binary64 values up to the sign of a zero *)

Open Scope float_scope.

Lemma zeq_refl (x : spec_float) : zeq x x.
Proof. destruct x; simpl; auto. Qed.

Lemma zeq_sym (x y : spec_float) : zeq x y -> zeq y x.
Proof.
  destruct x, y; simpl; intro H; try exact I; try discriminate H;
    now symmetry.
Qed.

Lemma zeq_trans (x y z : spec_float) : zeq x y -> zeq y z -> zeq x z.
Proof.
  destruct x, y; simpl; intro H; try discriminate H;
    destruct z; simpl; intro H'; try discriminate H'; try exact I;
    congruence.
Qed.

Ltac zeq_inv H :=
  simpl in H; try discriminate H; try (injection H; intros; subst); clear H.

Ltac zeq_cases x x' Hx y y' Hy :=
  destruct x, x'; zeq_inv Hx; destruct y, y'; zeq_inv Hy;
  try apply zeq_refl; try reflexivity;
  repeat match goal with s : bool |- _ => destruct s end;
  cbn; try exact I; try reflexivity.

(** The operations do not tell the two zeros apart, except the division by
    one. *)
Lemma SFadd_zeq (x x' y y' : spec_float) :
  zeq x x' -> zeq y y' -> zeq (SF64add x y) (SF64add x' y').
Proof. intros Hx Hy. unfold SF64add. zeq_cases x x' Hx y y' Hy. Qed.

Lemma SFsub_zeq (x x' y y' : spec_float) :
  zeq x x' -> zeq y y' -> zeq (SF64sub x y) (SF64sub x' y').
Proof. intros Hx Hy. unfold SF64sub. zeq_cases x x' Hx y y' Hy. Qed.

Lemma SFmul_zeq (x x' y y' : spec_float) :
  zeq x x' -> zeq y y' -> zeq (SF64mul x y) (SF64mul x' y').
Proof. intros Hx Hy. unfold SF64mul. zeq_cases x x' Hx y y' Hy. Qed.

Lemma SFdiv_zeq (x x' y : spec_float) :
  zeq x x' -> zeq (SF64div x y) (SF64div x' y).
Proof.
  intros Hx. unfold SF64div.
  destruct x, x'; zeq_inv Hx; try apply zeq_refl;
    destruct y; cbn; try exact I; try reflexivity.
Qed.

Lemma SFabs_zeq (x x' : spec_float) : zeq x x' -> SFabs x = SFabs x'.
Proof. intro Hx. destruct x, x'; zeq_inv Hx; reflexivity. Qed.

(** A zero added to a value that is not a zero leaves the value, whatever
    the sign of the zero. *)
Lemma SFadd_zeq_finite (x x' : spec_float) (s : bool) (m : positive) (e : Z) :
  zeq x x' ->
  SF64add x (S754_finite s m e) = SF64add x' (S754_finite s m e).
Proof. intro Hx. destruct x, x'; zeq_inv Hx; reflexivity. Qed.

Lemma SFcompare_zeq (x x' y y' : spec_float) :
  zeq x x' -> zeq y y' -> SFcompare x y = SFcompare x' y'.
Proof.
  intros Hx Hy.
  destruct x, x'; zeq_inv Hx; destruct y, y'; zeq_inv Hy; reflexivity.
Qed.

(** *** The order of binary64 values *)

Lemma SFcompare_refl (x : spec_float) :
  x <> S754_nan -> SFcompare x x = Some Eq.
Proof.
  intro H. destruct x as [s | s | | s m e]; try (now destruct s).
  - now contradict H.
  - cbn. rewrite Z.compare_refl, Pos.compare_cont_refl. now destruct s.
Qed.

Lemma SFcompare_antisym (x y : spec_float) :
  SFcompare y x = option_map CompOpp (SFcompare x y).
Proof.
  destruct x as [s | s | | s m e], y as [s' | s' | | s' m' e'];
    try reflexivity; try (now destruct s); try (now destruct s');
    try (now destruct s, s').
  cbn. rewrite (Z.compare_antisym e e').
  destruct s, s'; try reflexivity; destruct (e ?= e')%Z; cbn;
    try reflexivity; f_equal.
  - rewrite (Pos.compare_cont_antisym m m' Eq). reflexivity.
  - rewrite (Pos.compare_cont_antisym m m' Eq). reflexivity.
Qed.

Lemma SFcompare_some (x y : spec_float) :
  x <> S754_nan -> y <> S754_nan -> exists c, SFcompare x y = Some c.
Proof.
  intros Hx Hy. destruct x, y; try (now contradict Hx);
    try (now contradict Hy); cbn; eauto.
Qed.

Lemma SFcompare_Eq_zeq (x y : spec_float) :
  SFcompare x y = Some Eq -> zeq x y.
Proof.
  destruct x as [s | s | | s m e], y as [s' | s' | | s' m' e']; cbn;
    try discriminate; try (intros _; exact I);
    try (destruct s; discriminate); try (destruct s'; discriminate).
  - destruct s, s'; try discriminate; reflexivity.
  - destruct s, s'; try discriminate;
      destruct (Z.compare_spec e e'); try discriminate; subst; intro H;
      injection H as H.
    + apply (f_equal CompOpp) in H. rewrite CompOpp_involutive in H. cbn in H.
      apply Pos.compare_eq in H. now subst.
    + apply Pos.compare_eq in H. now subst.
Qed.

Lemma SFleb_total (x y : spec_float) :
  x <> S754_nan -> y <> S754_nan -> SFleb x y = true \/ SFleb y x = true.
Proof.
  intros Hx Hy. unfold SFleb. rewrite (SFcompare_antisym x y).
  destruct (SFcompare_some x y Hx Hy) as [c ->]. destruct c; cbn; auto.
Qed.

Lemma SFleb_antisym (x y : spec_float) :
  SFleb x y = true -> SFleb y x = true -> zeq x y.
Proof.
  unfold SFleb. rewrite (SFcompare_antisym x y).
  destruct (SFcompare x y) as [[] |] eqn:E; cbn; try discriminate.
  intros _ _. now apply SFcompare_Eq_zeq.
Qed.

Lemma SFleb_trans (x y z : spec_float) :
  SFleb x y = true -> SFleb y z = true -> SFleb x z = true.
Proof.
  unfold SFleb.
  destruct x as [s | s | | s m e], y as [s' | s' | | s' m' e'];
    try discriminate;
    destruct z as [s'' | s'' | | s'' m'' e'']; try discriminate;
    cbn;
    repeat match goal with b : bool |- _ => destruct b end;
    cbn; try discriminate; try reflexivity; try (intros _ _; reflexivity);
    try (intros H; discriminate H); try (intros _ H; discriminate H).
  all: change (PosDef.Pos.compare_cont Eq m m') with (Pos.compare m m');
    change (PosDef.Pos.compare_cont Eq m' m'') with (Pos.compare m' m'');
    change (PosDef.Pos.compare_cont Eq m m'') with (Pos.compare m m'');
    destruct (Z.compare_spec e e'), (Z.compare_spec e' e''),
      (Z.compare_spec e e''), (Pos.compare_spec m m'),
      (Pos.compare_spec m' m''), (Pos.compare_spec m m'');
    cbn; intros Hxy Hyz; try reflexivity; try discriminate; lia.
Qed.

(** *** The same facts on the values of the program *)

Lemma feq_refl (a : float) : feq a a.
Proof. apply zeq_refl. Qed.

Lemma feq_sym (a b : float) : feq a b -> feq b a.
Proof. apply zeq_sym. Qed.

Lemma feq_trans (a b c : float) : feq a b -> feq b c -> feq a c.
Proof. apply zeq_trans. Qed.

Lemma is_nan_false (a : float) :
  is_nan a = false <-> Prim2SF a <> S754_nan.
Proof.
  unfold is_nan. rewrite FloatAxioms.eqb_spec. unfold SFeqb. split.
  - intros H E. rewrite E in H. discriminate H.
  - intro H. now rewrite (SFcompare_refl _ H).
Qed.


Lemma feq_is_nan (a b : float) : feq a b -> is_nan a = is_nan b.
Proof.
  intro H. unfold is_nan. rewrite !FloatAxioms.eqb_spec. unfold SFeqb.
  now rewrite (SFcompare_zeq _ _ _ _ H H).
Qed.

Lemma add_feq (a a' b b' : float) :
  feq a a' -> feq b b' -> feq (a + b) (a' + b').
Proof. unfold feq. rewrite !FloatAxioms.add_spec. apply SFadd_zeq. Qed.

Lemma sub_feq (a a' b b' : float) :
  feq a a' -> feq b b' -> feq (a - b) (a' - b').
Proof. unfold feq. rewrite !FloatAxioms.sub_spec. apply SFsub_zeq. Qed.

Lemma mul_feq (a a' b b' : float) :
  feq a a' -> feq b b' -> feq (a * b) (a' * b').
Proof. unfold feq. rewrite !FloatAxioms.mul_spec. apply SFmul_zeq. Qed.

Lemma div_feq (a a' b : float) : feq a a' -> feq (a / b) (a' / b).
Proof. unfold feq. rewrite !FloatAxioms.div_spec. apply SFdiv_zeq. Qed.

(** The absolute value forgets the sign of a zero. *)
Lemma abs_feq (a a' : float) : feq a a' -> abs a = abs a'.
Proof.
  intro H. apply Prim2SF_inj. rewrite !FloatAxioms.abs_spec.
  now apply SFabs_zeq.
Qed.

(** So does the addition of the guard [1e-9]. *)
Lemma add_epsilon_feq (a a' : float) : feq a a' -> a + 1e-9 = a' + 1e-9.
Proof.
  intro H. apply Prim2SF_inj. rewrite !FloatAxioms.add_spec.
  assert (exists s m e, Prim2SF 1e-9 = S754_finite s m e) as (s & m & e & ->)
    by (vm_compute; eauto).
  now apply SFadd_zeq_finite.
Qed.

Lemma neg_zero_add (a : float) : neg_zero + a = a.
Proof.
  apply Prim2SF_inj. rewrite FloatAxioms.add_spec.
  change (Prim2SF neg_zero) with (S754_zero true).
  destruct (Prim2SF a) as [[] | | |]; reflexivity.
Qed.

Lemma fle_feq (a a' b b' : float) :
  feq a a' -> feq b b' -> (a <=? b) = (a' <=? b').
Proof.
  intros Ha Hb. rewrite !FloatAxioms.leb_spec. unfold SFleb.
  now rewrite (SFcompare_zeq _ _ _ _ Ha Hb).
Qed.


Lemma fle_total (a b : float) :
  is_nan a = false -> is_nan b = false ->
  (a <=? b) = true \/ (b <=? a) = true.
Proof.
  intros Ha Hb. rewrite !FloatAxioms.leb_spec.
  apply SFleb_total; now apply is_nan_false.
Qed.

Lemma fle_trans (a b c : float) :
  (a <=? b) = true -> (b <=? c) = true -> (a <=? c) = true.
Proof. rewrite !FloatAxioms.leb_spec. apply SFleb_trans. Qed.

Lemma fle_antisym (a b : float) :
  (a <=? b) = true -> (b <=? a) = true -> feq a b.
Proof. rewrite !FloatAxioms.leb_spec. apply SFleb_antisym. Qed.

(** *** Sorting binary64 values *)

Lemma finsert_Permutation (x : float) (l : list float) :
  Permutation (F64.Np.insert x l) (x :: l).
Proof.
  induction l as [| y t IH]; cbn [F64.Np.insert].
  - apply Permutation_refl.
  - destruct (x <=? y).
    + apply Permutation_refl.
    + apply perm_trans with (y :: x :: t).
      * now apply perm_skip.
      * apply perm_swap.
Qed.

Lemma fsort_Permutation (l : list float) : Permutation (F64.Np.sort l) l.
Proof.
  induction l as [| x t IH]; cbn [F64.Np.sort].
  - apply perm_nil.
  - apply perm_trans with (x :: F64.Np.sort t).
    + apply finsert_Permutation.
    + now apply perm_skip.
Qed.

Lemma no_nan_Permutation (l l' : list float) :
  Permutation l l' -> no_nan l -> no_nan l'.
Proof. intros H Hl. exact (Permutation_Forall H Hl). Qed.

Lemma fsort_no_nan (l : list float) : no_nan l -> no_nan (F64.Np.sort l).
Proof.
  apply no_nan_Permutation, Permutation_sym, fsort_Permutation.
Qed.

Lemma existsb_is_nan_false (l : list float) :
  existsb is_nan l = false -> no_nan l.
Proof.
  induction l as [| x t IH]; cbn; intro H; constructor.
  - now destruct (is_nan x).
  - apply IH. now destruct (is_nan x).
Qed.

Lemma finsert_Sorted (x : float) (l : list float) :
  is_nan x = false -> no_nan l -> Sorted F64.fle l ->
  Sorted F64.fle (F64.Np.insert x l).
Proof.
  intros Hx Hl Hs. induction Hs as [| y t Ht IH Hy]; cbn [F64.Np.insert].
  - repeat constructor.
  - inversion Hl as [| ? ? Hny Hnt]; subst.
    destruct (x <=? y) eqn:E.
    + constructor; [now constructor |]. now constructor.
    + assert (F64.fle y x) as Hyx.
      { destruct (fle_total x y Hx Hny) as [H | H]; [congruence | exact H]. }
      constructor; [now apply IH |].
      destruct t as [| z t']; cbn [F64.Np.insert]; [now constructor |].
      inversion Hy; subst. destruct (x <=? z); now constructor.
Qed.

Lemma fsort_Sorted (l : list float) :
  no_nan l -> Sorted F64.fle (F64.Np.sort l).
Proof.
  induction 1 as [| x t Hx Ht IH]; cbn [F64.Np.sort]; [constructor |].
  apply finsert_Sorted; [exact Hx | now apply fsort_no_nan | exact IH].
Qed.

Lemma Forall2_feq_refl (l : list float) : Forall2 feq l l.
Proof. induction l; constructor; [apply feq_refl | assumption]. Qed.

Lemma Forall2_feq_trans (l1 l2 l3 : list float) :
  Forall2 feq l1 l2 -> Forall2 feq l2 l3 -> Forall2 feq l1 l3.
Proof.
  intro H. revert l3. induction H as [| a b t1 t2 Hab Ht IH]; intros l3 H3.
  - inversion H3. constructor.
  - inversion H3 as [| b' c t2' t3 Hbc Ht3]; subst. constructor.
    + exact (feq_trans _ _ _ Hab Hbc).
    + now apply IH.
Qed.

Lemma Forall2_feq_nth (l l' : list float) (k : nat) (d : float) :
  Forall2 feq l l' -> feq (nth k l d) (nth k l' d).
Proof.
  intro H. revert k. induction H as [| a b t t' Hab Ht IH]; intro k.
  - apply feq_refl.
  - destruct k; cbn; [exact Hab | apply IH].
Qed.

Lemma finsert_feq (x x' : float) (l l' : list float) :
  feq x x' -> Forall2 feq l l' ->
  Forall2 feq (F64.Np.insert x l) (F64.Np.insert x' l').
Proof.
  intros Hx H. induction H as [| y y' t t' Hy Ht IH]; cbn [F64.Np.insert].
  - constructor; [exact Hx | constructor].
  - rewrite (fle_feq _ _ _ _ Hx Hy). destruct (x' <=? y').
    + constructor; [exact Hx |]. constructor; assumption.
    + constructor; assumption.
Qed.

(** Two insertions commute, up to the order of two values that compare
    equal. *)
Lemma finsert_insert (x y : float) (l : list float) :
  is_nan x = false -> is_nan y = false -> no_nan l ->
  Forall2 feq (F64.Np.insert x (F64.Np.insert y l))
              (F64.Np.insert y (F64.Np.insert x l)).
Proof.
  intros Hx Hy Hl.
  assert (forall r, (x <=? y) = true -> (y <=? x) = true ->
                    Forall2 feq (x :: y :: r) (y :: x :: r)) as Htie.
  { intros r Hxy Hyx. pose proof (fle_antisym x y Hxy Hyx) as E.
    constructor; [exact E |]. constructor; [now apply feq_sym |].
    apply Forall2_feq_refl. }
  induction Hl as [| z t Hz Ht IH]; cbn [F64.Np.insert].
  - destruct (x <=? y) eqn:Exy, (y <=? x) eqn:Eyx.
    + now apply Htie.
    + apply Forall2_feq_refl.
    + apply Forall2_feq_refl.
    + destruct (fle_total x y Hx Hy); congruence.
  - destruct (y <=? z) eqn:Eyz, (x <=? z) eqn:Exz; cbn [F64.Np.insert];
      rewrite ?Eyz, ?Exz.
    + destruct (x <=? y) eqn:Exy, (y <=? x) eqn:Eyx.
      * now apply Htie.
      * apply Forall2_feq_refl.
      * apply Forall2_feq_refl.
      * destruct (fle_total x y Hx Hy); congruence.
    + destruct (x <=? y) eqn:Exy.
      * rewrite (fle_trans x y z Exy Eyz) in Exz. discriminate Exz.
      * apply Forall2_feq_refl.
    + destruct (y <=? x) eqn:Eyx.
      * rewrite (fle_trans y x z Eyx Exz) in Eyz. discriminate Eyz.
      * apply Forall2_feq_refl.
    + constructor; [apply feq_refl | exact IH].
Qed.

(** The sorted data of a reordered series is the same, up to the sign of
    zeros. *)
Lemma fsort_Permutation_feq (l l' : list float) :
  Permutation l l' -> no_nan l ->
  Forall2 feq (F64.Np.sort l) (F64.Np.sort l').
Proof.
  induction 1 as [| x l l' H IH | x y l | l1 l2 l3 H12 IH12 H23 IH23];
    intro Hl.
  - constructor.
  - cbn [F64.Np.sort]. inversion Hl; subst.
    apply finsert_feq; [apply feq_refl | now apply IH].
  - cbn [F64.Np.sort]. inversion Hl as [| ? ? Hy Hl']; subst.
    inversion Hl' as [| ? ? Hx Hl'']; subst.
    apply finsert_insert; try assumption. now apply fsort_no_nan.
  - apply Forall2_feq_trans with (F64.Np.sort l2).
    + now apply IH12.
    + apply IH23. exact (no_nan_Permutation _ _ H12 Hl).
Qed.

Lemma existsb_Permutation {A : Type} (f : A -> bool) (l l' : list A) :
  Permutation l l' -> existsb f l = existsb f l'.
Proof.
  induction 1 as [| x l l' H IH | x y l | l1 l2 l3 H12 IH12 H23 IH23]; cbn.
  - reflexivity.
  - now rewrite IH.
  - destruct (f x), (f y); reflexivity.
  - congruence.
Qed.

(** *** The sum of binary64 values *)

(** The cuts of the pairwise summation never run out of fuel: with as much
    fuel as the array is long, the sum does not depend on the fuel. *)
Lemma pairwise_sum_fuel (fuel fuel' : nat) (a : list float) :
  (length a <= fuel)%nat -> (length a <= fuel')%nat ->
  F64.Np.pairwise_sum fuel a = F64.Np.pairwise_sum fuel' a.
Proof.
  revert fuel' a.
  induction fuel as [| fuel IH]; intros fuel' a Hf Hf'.
  - destruct a; [| cbn in Hf; lia]. now destruct fuel'.
  - destruct fuel' as [| fuel'].
    { destruct a; [reflexivity | cbn in Hf'; lia]. }
    cbn [F64.Np.pairwise_sum].
    destruct (Nat.ltb_spec (length a) 8) as [| H8]; [reflexivity |].
    destruct (Nat.leb_spec (length a) 128) as [| H128]; [reflexivity |].
    set (n2 := (length a / 2 - (length a / 2) mod 8)%nat).
    assert (0 < n2 < length a)%nat as Hn2.
    { unfold n2.
      pose proof (Nat.mod_upper_bound (length a / 2) 8) as Hm.
      pose proof (Nat.div_mod_eq (length a) 2) as Hd.
      pose proof (Nat.mod_upper_bound (length a) 2) as Hr. lia. }
    f_equal; apply IH;
      rewrite ?length_firstn, ?length_skipn; lia.
Qed.

(** *** The median of binary64 values *)

Lemma mean_pair (a b : float) :
  F64.Np.mean [a; b] = (neg_zero + a + b) / 2.
Proof. reflexivity. Qed.

(** [np.median] is the median in the words of the specification. *)
Lemma np_median_is_median (xs : list float) :
  F64.is_median xs (F64.Np.median xs).
Proof.
  unfold F64.is_median, F64.Np.median.
  destruct (existsb is_nan xs) eqn:E; [reflexivity |].
  apply existsb_is_nan_false in E.
  exists (F64.Np.sort xs). split; [apply fsort_Permutation |].
  split; [now apply fsort_Sorted |].
  destruct (Nat.even (length xs)); [| reflexivity].
  now rewrite mean_pair, neg_zero_add.
Qed.

(** The median of a reordered series is the same, up to the sign of a
    zero. *)
Lemma median_Permutation_feq (l l' : list float) :
  Permutation l l' -> feq (F64.Np.median l) (F64.Np.median l').
Proof.
  intro H. unfold F64.Np.median.
  rewrite <- (existsb_Permutation is_nan l l' H).
  rewrite <- (Permutation_length H).
  destruct (existsb is_nan l) eqn:E; [apply feq_refl |].
  apply existsb_is_nan_false in E.
  pose proof (fsort_Permutation_feq l l' H E) as Hs.
  destruct (Nat.even (length l)).
  - rewrite !mean_pair. apply div_feq.
    apply add_feq; [apply add_feq; [apply feq_refl |] |];
      now apply Forall2_feq_nth.
  - now apply Forall2_feq_nth.
Qed.

(** ** The detectors on binary64 values *)

(** Above the length guard both detectors are one pass of a score function
    over the series. *)
Lemma binary64_zscore_unfold (series : list float) (threshold : float) :
  (2 <= length series)%nat ->
  F64.detect_anomalies_zscore series threshold
  = map (fun x =>
           threshold
           <? abs ((x - F64.Np.mean series) / (F64.Np.std series + 1e-9)))
        series.
Proof.
  intro H. unfold F64.detect_anomalies_zscore.
  apply Nat.ltb_ge in H. rewrite H. cbv zeta. now rewrite map_map.
Qed.

Lemma binary64_mad_unfold (series : list float) (threshold : float) :
  (2 <= length series)%nat ->
  F64.detect_anomalies_mad series threshold
  = map (fun x =>
           threshold
           <? abs (0.6745 * (x - F64.Np.median series)
                   / (F64.Np.median
                        (map (fun y => abs (y - F64.Np.median series)) series)
                      + 1e-9)))
        series.
Proof.
  intro H. unfold F64.detect_anomalies_mad.
  apply Nat.ltb_ge in H. rewrite H. cbv zeta. now rewrite map_map.
Qed.

(** Below the length guard they return all-false, as their exact
    counterparts do. *)
Lemma binary64_short_series (series : list float) (threshold : float) :
  (length series < 2)%nat ->
  F64.detect_anomalies_zscore series threshold = repeat false (length series)
  /\ F64.detect_anomalies_mad series threshold
     = repeat false (length series).
Proof.
  intro H. apply Nat.ltb_lt in H.
  unfold F64.detect_anomalies_zscore, F64.detect_anomalies_mad.
  rewrite H. split; reflexivity.
Qed.




(** C2.  For a series of at least two binary64 values, the MAD detector
    returns one boolean per element, in the order of the series: with [m]
    the median of the series and [mad] the median of the distances
    [|x_i - m|], the flag of an element [x] is the comparison
    [|0.6745 * (x - m) / (mad + 1e-9)| > threshold], every operation being
    the binary64 one and [0.6745] the binary64 value of that literal. *)
Theorem mad_follows_the_recipe (series : list float) (threshold : float)
    (Hlen : (2 <= length series)%nat) :
  exists m mad,
    F64.is_median series m /\
    F64.is_median (map (fun x => abs (x - m)) series) mad /\
    length (F64.detect_anomalies_mad series threshold) = length series /\
    forall i x, nth_error series i = Some x ->
      nth_error (F64.detect_anomalies_mad series threshold) i
      = Some (threshold <? abs (0.6745 * (x - m) / (mad + 1e-9))).
Proof.
  exists (F64.Np.median series),
         (F64.Np.median
            (map (fun x => abs (x - F64.Np.median series)) series)).
  split; [apply np_median_is_median |].
  split; [apply np_median_is_median |].
  rewrite (binary64_mad_unfold series threshold Hlen). split.
  - apply length_map.
  - intros i x Hx. rewrite nth_error_map, Hx. reflexivity.
Qed.

Lemma mad_follows_the_recipe_witness :
  (2 <= length [10; 10; 100])%nat /\
  exists m mad,
    F64.is_median [10; 10; 100] m /\
    F64.is_median (map (fun x => abs (x - m)) [10; 10; 100]) mad /\
    length (F64.detect_anomalies_mad [10; 10; 100] 3.5)
    = length [10; 10; 100] /\
    forall i x, nth_error [10; 10; 100] i = Some x ->
      nth_error (F64.detect_anomalies_mad [10; 10; 100] 3.5) i
      = Some (3.5 <? abs (0.6745 * (x - m) / (mad + 1e-9))).
Proof.
  split; [simpl; lia |].
  apply (mad_follows_the_recipe [10; 10; 100] 3.5). simpl. lia.
Defined.

(** *** Reordering the series *)

(** The flag of a value does not change when the MAD detector looks at the
    values of the series in another order. *)
Lemma mad_flag_feq (x m m' mad mad' threshold : float) :
  feq m m' -> feq mad mad' ->
  (threshold <? abs (0.6745 * (x - m) / (mad + 1e-9)))
  = (threshold <? abs (0.6745 * (x - m') / (mad' + 1e-9))).
Proof.
  intros Hm Hmad. rewrite (add_epsilon_feq mad mad' Hmad). f_equal.
  apply abs_feq, div_feq, mul_feq; [apply feq_refl |].
  apply sub_feq; [apply feq_refl | exact Hm].
Qed.

Lemma mad_flag_Permutation (xs ys : list float) (threshold x : float) :
  Permutation xs ys ->
  (threshold
   <? abs (0.6745 * (x - F64.Np.median xs)
           / (F64.Np.median (map (fun y => abs (y - F64.Np.median xs)) xs)
              + 1e-9)))
  = (threshold
     <? abs (0.6745 * (x - F64.Np.median ys)
             / (F64.Np.median (map (fun y => abs (y - F64.Np.median ys)) ys)
                + 1e-9))).
Proof.
  intro H. pose proof (median_Permutation_feq xs ys H) as Hm.
  apply mad_flag_feq; [exact Hm |].
  rewrite (map_ext (fun y => abs (y - F64.Np.median xs))
                   (fun y => abs (y - F64.Np.median ys))).
  - apply median_Permutation_feq. now apply Permutation_map.
  - intro y. apply abs_feq, sub_feq; [apply feq_refl | exact Hm].
Qed.

(** C7 (as amended).  For a series of at least two binary64 values and a
    permutation [p] of its indices, the MAD detector applied to the reordered
    series gives the reordering by [p] of its result on the series.  The
    Z-Score detector does so whenever [np.mean] and [np.std] of the reordered
    series are those of the series; the two are sums of rounded terms and can
    change with the order of the values. *)
Theorem mad_reordering_and_zscore_rounding (series : list float)
    (threshold : float) (p : list nat)
    (Hlen : (2 <= length series)%nat)
    (Hp : is_index_permutation p (length series) = true) :
  let permuted := permute p series 0 in
  F64.detect_anomalies_mad permuted threshold
  = permute p (F64.detect_anomalies_mad series threshold) false /\
  (F64.Np.mean permuted = F64.Np.mean series ->
   F64.Np.std permuted = F64.Np.std series ->
   F64.detect_anomalies_zscore permuted threshold
   = permute p (F64.detect_anomalies_zscore series threshold) false).
Proof.
  intro permuted.
  apply is_index_permutation_Permutation in Hp.
  pose proof (permute_Permutation p series 0 Hp) as Hperm.
  fold permuted in Hperm.
  assert (2 <= length permuted)%nat as Hlen'.
  { now rewrite (Permutation_length Hperm). }
  split.
  - rewrite (binary64_mad_unfold _ threshold Hlen').
    rewrite (binary64_mad_unfold _ threshold Hlen).
    rewrite (map_ext _ _
               (fun x => mad_flag_Permutation permuted series threshold x
                           Hperm)).
    now apply permute_map.
  - intros Hmean Hstd.
    rewrite (binary64_zscore_unfold _ threshold Hlen').
    rewrite (binary64_zscore_unfold _ threshold Hlen).
    rewrite Hmean, Hstd. now apply permute_map.
Qed.

Lemma mad_reordering_and_zscore_rounding_witness :
  ((2 <= length [10; 10; 100; 12])%nat /\
   is_index_permutation [2; 0; 3; 1]%nat (length [10; 10; 100; 12]) = true) /\
  F64.detect_anomalies_mad (permute [2; 0; 3; 1]%nat [10; 10; 100; 12] 0) 3
  = permute [2; 0; 3; 1]%nat (F64.detect_anomalies_mad [10; 10; 100; 12] 3)
            false /\
  F64.detect_anomalies_zscore (permute [2; 0; 3; 1]%nat [10; 10; 100; 12] 0) 3
  = permute [2; 0; 3; 1]%nat
            (F64.detect_anomalies_zscore [10; 10; 100; 12] 3) false.
Proof.
  split.
  - split; [simpl; lia | reflexivity].
  - destruct (mad_reordering_and_zscore_rounding
                [10; 10; 100; 12] 3 [2; 0; 3; 1]%nat) as [Hmad Hz];
      [simpl; lia | reflexivity |].
    split; [exact Hmad |]. apply Hz; vm_compute; reflexivity.
Defined.

(** The claim as it was stated fails for the Z-Score detector: the
    deviations of [10; 3; 1] and of [10; 1; 3] are squared and summed in
    another order, the two standard deviations differ in their last digit,
    and at a threshold between the two scores of the value 10 the value is
    flagged in one order and not in the other. *)
Lemma zscore_reordering_counterexample :
  let series := [10; 3; 1] in
  let p := [0; 2; 1]%nat in
  let threshold := 1.382189480571967 in
  (2 <= length series)%nat /\
  is_index_permutation p (length series) = true /\
  permute p series 0 = [10; 1; 3] /\
  F64.Np.std series = 3.8586123009300755 /\
  F64.Np.std (permute p series 0) = 3.858612300930075 /\
  F64.detect_anomalies_zscore series threshold = [false; false; false] /\
  F64.detect_anomalies_zscore (permute p series 0) threshold
  = [true; false; false] /\
  F64.detect_anomalies_zscore (permute p series 0) threshold
  <> permute p (F64.detect_anomalies_zscore series threshold) false.
Proof.
  cbv zeta. split; [simpl; lia |].
  repeat split; try (vm_compute; reflexivity).
  vm_compute. discriminate.
Qed.

(** *** Constant series *)
















(** *** Executions on binary64 values *)

(** The Z-Score detector where rounding or overflow decides: a standard
    deviation that overflows to infinity, a score that is rounded to just
    above the threshold 3, and a series of six values that are all
    flagged. *)
Example binary64_zscore_runs :
  F64.Np.std (repeat 0 9 ++ [1e200]) = infinity /\
  F64.detect_anomalies_zscore (repeat 0 9 ++ [1e200]) 2 = repeat false 10 /\
  F64.detect_anomalies_zscore (repeat 100 9 ++ [208854731]) 3
  = repeat false 9 ++ [true] /\
  (208854731 - F64.Np.mean (repeat 100 9 ++ [208854731]))
  / (F64.Np.std (repeat 100 9 ++ [208854731]) + 1e-9) = 3.0000000000000004 /\
  F64.detect_anomalies_zscore (repeat 350 3 ++ repeat 103146944 3) 1
  = repeat true 6.
Proof. repeat split; vm_compute; reflexivity. Qed.

(** The MAD detector: a spike among values at the floor, a score that is
    exactly the threshold and is not flagged, and a median of two large
    values that overflows. *)
Example binary64_mad_runs :
  F64.detect_anomalies_mad [10; 10; 10; 10; 100] 3.5
  = [false; false; false; false; true] /\
  0.6745 * (112.37805782579689 - 102) / (2 + 1e-9) = 3.5 /\
  F64.detect_anomalies_mad [100; 102; 112.37805782579689] 3.5
  = [false; false; false] /\
  F64.Np.median [1e308; 1.5e308] = infinity /\
  F64.detect_anomalies_mad [1e308; 1.5e308] 3.5 = [false; false].
Proof. repeat split; vm_compute; reflexivity. Qed.

Close Scope float_scope.

(** ** The window *)

Lemma skipn_S_tl {A : Type} (k : nat) (l : list A) :
  skipn (S k) l = tl (skipn k l).
Proof.
  revert l. induction k as [| k IH]; intros [| a t]; try reflexivity.
  change (skipn (S k) t = tl (skipn k t)). apply IH.
Qed.

Lemma skipn_app_le {A : Type} (k : nat) (l r : list A) :
  (k <= length l)%nat -> skipn k (l ++ r) = skipn k l ++ r.
Proof.
  intro H. rewrite skipn_app.
  replace (k - length l)%nat with 0%nat by lia. reflexivity.
Qed.

Lemma lastn_length {A : Type} (n : nat) (l : list A) :
  length (lastn n l) = Nat.min n (length l).
Proof. unfold lastn. rewrite length_skipn. lia. Qed.

Lemma lastn_all {A : Type} (n : nat) (l : list A) :
  (length l <= n)%nat -> lastn n l = l.
Proof.
  intro H. unfold lastn.
  replace (length l - n)%nat with 0%nat by lia. reflexivity.
Qed.

(** Pushing onto a window that holds the last [maxlen] values of a history
    gives the last [maxlen] values of the extended history. *)
Lemma append_lastn (d : deque) (h : list R) (x : R) :
  (0 <= maxlen d)%Z ->
  items d = lastn (Z.to_nat (maxlen d)) h ->
  items (append x d) = lastn (Z.to_nat (maxlen d)) (h ++ [x]).
Proof.
  intros Hcap Hitems. unfold append. cbn [items].
  rewrite Hitems, length_app, lastn_length. cbn [length].
  unfold lastn. rewrite length_app. cbn [length].
  set (N := Z.to_nat (maxlen d)).
  destruct (Z.ltb_spec (maxlen d) (Z.of_nat (Nat.min N (length h) + 1)))
    as [Hfull | Hroom].
  - assert (N <= length h)%nat as HN by lia.
    replace (length h + 1 - N)%nat with (S (length h - N)) by lia.
    rewrite skipn_S_tl, skipn_app_le by lia. reflexivity.
  - assert (length h < N)%nat as HN by lia.
    replace (length h - N)%nat with 0%nat by lia.
    replace (length h + 1 - N)%nat with 0%nat by lia.
    reflexivity.
Qed.

Lemma append_maxlen (x : R) (d : deque) : maxlen (append x d) = maxlen d.
Proof. reflexivity. Qed.

Lemma append_ok (x : R) (d : deque) : deque_ok d -> deque_ok (append x d).
Proof.
  intros [Hcap Hlen]. split; [exact Hcap |].
  unfold append. cbn [items maxlen]. rewrite length_app. cbn [length].
  destruct (Z.ltb_spec (maxlen d) (Z.of_nat (length (items d) + 1))).
  - destruct (items d ++ [x]) eqn:E.
    + apply (f_equal (@length R)) in E. rewrite length_app in E.
      cbn [length] in E. lia.
    + apply (f_equal (@length R)) in E. rewrite length_app in E.
      cbn [length tl] in *. lia.
  - rewrite length_app. cbn [length]. lia.
Qed.

Lemma push_all_lastn (vs : list R) (n : Z) :
  (0 <= n)%Z ->
  let d := fold_left (fun d x => append x d) vs (mkDeque [] n) in
  maxlen d = n /\ items d = lastn (Z.to_nat n) vs.
Proof.
  intro Hn. induction vs as [| x vs IH] using rev_ind.
  - split; reflexivity.
  - cbv zeta in *. rewrite fold_left_app. cbn [fold_left].
    destruct IH as [Hmax Hitems]. split.
    + now rewrite append_maxlen.
    + pose proof (append_lastn _ vs x (eq_ind_r (Z.le 0) Hn Hmax)) as H.
      rewrite Hmax in H. now apply H.
Qed.

Lemma deque_new_lastn (l : list R) (n : Z) :
  (0 <= n)%Z ->
  exists d, deque_new l n = Ok d /\ maxlen d = n /\
            items d = lastn (Z.to_nat n) l.
Proof.
  intro Hn. unfold deque_new.
  destruct (Z.ltb_spec n 0) as [Hneg | _]; [lia |].
  eexists. split; [reflexivity |]. now apply push_all_lastn.
Qed.

Lemma deque_new_negative (l : list R) (n : Z) :
  (n < 0)%Z -> deque_new l n = Raise ValueError.
Proof.
  intro Hn. unfold deque_new. now destruct (Z.ltb_spec n 0); [| lia].
Qed.

Lemma deque_new_ok (l : list R) (n : Z) (d : deque) :
  deque_new l n = Ok d -> deque_ok d /\ maxlen d = n.
Proof.
  intro H. destruct (Z.ltb_spec n 0) as [Hneg | Hn].
  - rewrite deque_new_negative in H by assumption. discriminate H.
  - destruct (deque_new_lastn l n Hn) as (d' & Hd' & Hmax & Hitems).
    rewrite Hd' in H. injection H as <-.
    split; [| exact Hmax]. split; [lia |].
    rewrite Hitems, lastn_length, Hmax. lia.
Qed.

(** The effect of the resize on the contents. *)
Lemma resize_op_lastn (d : deque) (n : Z) :
  deque_ok d -> (0 <= n)%Z ->
  exists d', apply_op (Resize n) d = Ok d' /\ maxlen d' = n /\
             items d' = lastn (Z.to_nat n) (items d).
Proof.
  intros [Hcap Hlen] Hn. cbn [apply_op].
  destruct (Z.eqb_spec n (maxlen d)) as [-> | Hne]; cbn [negb].
  - exists d. split; [reflexivity |]. split; [reflexivity |].
    symmetry. apply lastn_all. lia.
  - now apply deque_new_lastn.
Qed.

Lemma apply_op_ok (o : window_op) (d d' : deque) :
  deque_ok d -> apply_op o d = Ok d' -> deque_ok d'.
Proof.
  intros Hd H. destruct o as [x | n]; cbn [apply_op] in H.
  - injection H as <-. now apply append_ok.
  - destruct (negb (n =? maxlen d)%Z).
    + now apply deque_new_ok in H.
    + now injection H as <-.
Qed.

Lemma suffix_of_lastn (l h : list R) :
  suffix_of l h -> l = lastn (length l) h.
Proof.
  intros [pre ->]. unfold lastn. rewrite length_app.
  replace (length pre + length l - length l)%nat with (length pre) by lia.
  rewrite skipn_app, skipn_all, Nat.sub_diag. reflexivity.
Qed.

Lemma suffix_of_skipn (k : nat) (l h : list R) :
  suffix_of l h -> suffix_of (skipn k l) h.
Proof.
  intros [pre ->]. exists (pre ++ firstn k l).
  now rewrite <- app_assoc, firstn_skipn.
Qed.

Lemma suffix_of_append (d : deque) (h : list R) (x : R) :
  suffix_of (items d) h -> suffix_of (items (append x d)) (h ++ [x]).
Proof.
  intros [pre ->]. unfold append. cbn [items].
  assert (suffix_of (items d ++ [x]) ((pre ++ items d) ++ [x])) as H.
  { exists pre. now rewrite app_assoc. }
  destruct (_ <? _)%Z; [| exact H].
  now apply (suffix_of_skipn 1).
Qed.

Lemma apply_ops_invariant (ops : list window_op) (d d' : deque) (h : list R) :
  deque_ok d -> suffix_of (items d) h -> apply_ops ops d = Ok d' ->
  deque_ok d' /\ suffix_of (items d') (h ++ pushed ops).
Proof.
  revert d h. induction ops as [| o rest IH]; intros d h Hd Hs Hrun.
  - cbn in *. injection Hrun as <-. now rewrite app_nil_r.
  - cbn [apply_ops] in Hrun.
    destruct (apply_op o d) as [d1 |] eqn:Hop; [| discriminate Hrun].
    pose proof (apply_op_ok o d d1 Hd Hop) as Hd1.
    destruct o as [x | n]; cbn [pushed flat_map] in *.
    + injection Hop as <-.
      rewrite app_assoc. apply (IH (append x d)); try assumption.
      now apply suffix_of_append.
    + cbn [app]. apply (IH d1); try assumption.
      destruct (resize_op_lastn d n Hd) as (d2 & Hop2 & _ & Hitems).
      { destruct (Z.ltb_spec n 0) as [Hneg | Hn]; [| exact Hn].
        cbn [apply_op] in Hop.
        destruct (Z.eqb_spec n (maxlen d)) as [-> | Hne]; cbn [negb] in Hop.
        - apply Hd.
        - rewrite deque_new_negative in Hop by assumption. discriminate. }
      rewrite Hop in Hop2. injection Hop2 as <-.
      rewrite Hitems. now apply suffix_of_skipn.
Qed.

Lemma apply_ops_fixed_capacity (ops : list window_op) (d d' : deque)
    (h : list R) :
  (0 <= maxlen d)%Z -> items d = lastn (Z.to_nat (maxlen d)) h ->
  no_resize ops = true -> apply_ops ops d = Ok d' ->
  maxlen d' = maxlen d /\
  items d' = lastn (Z.to_nat (maxlen d)) (h ++ pushed ops).
Proof.
  revert d h. induction ops as [| o rest IH]; intros d h Hcap Hitems Hno Hrun.
  - cbn in *. injection Hrun as <-. now rewrite app_nil_r.
  - destruct o as [x | n]; [| discriminate Hno].
    cbn [apply_ops apply_op no_resize forallb pushed flat_map] in *.
    rewrite app_assoc.
    apply (IH (append x d) (h ++ [x])); try assumption.
    exact (append_lastn d h x Hcap Hitems).
Qed.

(** C5 (as amended).  In every window reached from an empty one by pushes and
    resizes, the contents are the most recent values pushed, in push order,
    as many as the window holds, and never more than the capacity.  As long
    as the capacity has not been changed, they are exactly the most recent
    min(C, number pushed) values: after C + k pushes the window has length C
    and holds the last C values.  A push keeps the most recent [maxlen]
    values of the contents followed by the new value.  A resize keeps exactly
    the most recent [new_capacity] elements; when the new capacity is not
    below the length, the contents are unchanged. *)
Theorem window_holds_recent_values (C0 : Z) (ops : list window_op)
    (d : deque)
    (HC : (0 <= C0)%Z)
    (Hrun : apply_ops ops (mkDeque [] C0) = Ok d) :
  let n := length (items d) in
  (Z.of_nat n <= maxlen d)%Z /\
  items d = lastn n (pushed ops) /\
  (no_resize ops = true ->
     maxlen d = C0 /\
     items d = lastn (Z.to_nat C0) (pushed ops) /\
     n = Nat.min (Z.to_nat C0) (length (pushed ops)) /\
     ((Z.to_nat C0 <= length (pushed ops))%nat -> n = Z.to_nat C0)) /\
  (forall x,
     items (append x d) = lastn (Z.to_nat (maxlen d)) (items d ++ [x])) /\
  (forall new_capacity, (0 <= new_capacity)%Z ->
     exists d',
       apply_op (Resize new_capacity) d = Ok d' /\
       maxlen d' = new_capacity /\
       items d' = lastn (Z.to_nat new_capacity) (items d) /\
       ((Z.of_nat n <= new_capacity)%Z -> items d' = items d)).
Proof.
  intro n.
  assert (deque_ok (mkDeque [] C0)) as H0 by (split; cbn; lia).
  assert (suffix_of (items (mkDeque [] C0)) []) as Hs0 by (now exists []).
  destruct (apply_ops_invariant ops _ d [] H0 Hs0 Hrun) as [Hd Hs].
  cbn [app] in Hs. split; [apply Hd |]. split; [| split; [| split]].
  - now apply suffix_of_lastn.
  - intro Hno.
    destruct (apply_ops_fixed_capacity ops (mkDeque [] C0) d [] HC eq_refl
                Hno Hrun) as [Hmax Hitems].
    cbn [maxlen app] in Hmax, Hitems.
    assert (n = Nat.min (Z.to_nat C0) (length (pushed ops))) as Hn.
    { unfold n. now rewrite Hitems, lastn_length. }
    repeat split; try assumption. lia.
  - intro x. apply append_lastn; [apply Hd |].
    symmetry. apply lastn_all. destruct Hd. lia.
  - intros new_capacity Hnew.
    destruct (resize_op_lastn d new_capacity Hd Hnew)
      as (d' & Hop & Hmax & Hitems).
    exists d'. repeat split; try assumption.
    intro Hle. rewrite Hitems. apply lastn_all. fold n. lia.
Qed.

Lemma window_holds_recent_values_witness :
  ((0 <= 2)%Z /\
   apply_ops [Push 1; Push 2; Push 3] (mkDeque [] 2) = Ok (mkDeque [2; 3] 2))
  /\ items (mkDeque [2; 3] 2) = lastn 2 (pushed [Push 1; Push 2; Push 3]).
Proof.
  split.
  - split; [lia | reflexivity].
  - destruct (window_holds_recent_values 2 [Push 1; Push 2; Push 3]
                (mkDeque [2; 3] 2)) as (_ & H & _);
      [lia | reflexivity | exact H].
Defined.

(** The claim as it was stated fails after the capacity has grown: eleven
    values pushed into a window of capacity 10 and a resize to 11 leave ten
    values in the window, not min(11, 11). *)
Lemma window_min_capacity_pushed_counterexample :
  let ops := map Push [1; 2; 3; 4; 5; 6; 7; 8; 9; 10; 11] ++ [Resize 11] in
  exists d,
    apply_ops ops (mkDeque [] 10) = Ok d /\
    maxlen d = 11%Z /\
    items d = [2; 3; 4; 5; 6; 7; 8; 9; 10; 11] /\
    items d
    <> lastn (Nat.min (Z.to_nat (maxlen d)) (length (pushed ops)))
             (pushed ops).
Proof.
  eexists. split; [reflexivity |]. split; [reflexivity |].
  split; [reflexivity |].
  intro H. apply (f_equal (@length R)) in H. discriminate H.
Qed.

(** ** The Isolation Forest detector *)

(** C4 (as amended).  When the series has fewer than two values, the
    Isolation Forest detector returns all-false without calling the library,
    so a failure of the fitting step cannot show.  When the series has at
    least two values and the fitting step fails, the failure is not caught:
    the detector raises the exception of the library. *)
Theorem isolation_forest_failure_propagates (fit_predict : fit_predict_t)
    (series : list R) (contamination : R) (e : exn)
    (Hfail : fit_predict contamination series = Raise e) :
  ((length series < 2)%nat ->
   detect_anomalies_isolation_forest fit_predict series contamination
   = Ok (repeat false (length series))) /\
  ((2 <= length series)%nat ->
   detect_anomalies_isolation_forest fit_predict series contamination
   = Raise e).
Proof.
  unfold detect_anomalies_isolation_forest. split; intro Hlen.
  - now rewrite (short_series series Hlen).
  - rewrite (long_series series Hlen). cbv zeta. now rewrite Hfail.
Qed.

Lemma checked_fit_predict_rejects :
  checked_fit_predict 0.7 [1; 2] = Raise InvalidParameterError.
Proof.
  unfold checked_fit_predict, Np.Rltb.
  destruct (Rlt_dec 0 0.7); [| exfalso; lra].
  destruct (Rlt_dec 0.5 0.7); [reflexivity | exfalso; lra].
Qed.

Lemma isolation_forest_failure_propagates_witness :
  checked_fit_predict 0.7 [1; 2] = Raise InvalidParameterError /\
  detect_anomalies_isolation_forest checked_fit_predict [1; 2] 0.7
  = Raise InvalidParameterError.
Proof.
  split.
  - exact checked_fit_predict_rejects.
  - apply (isolation_forest_failure_propagates
             checked_fit_predict [1; 2] 0.7 InvalidParameterError).
    + exact checked_fit_predict_rejects.
    + simpl. lia.
Defined.

(** The claim as it was stated fails: with a contamination of 0.7 the library
    call rejects its parameter, and on a series of two values the detector
    raises instead of returning all-false. *)
Lemma isolation_forest_failure_counterexample :
  checked_fit_predict 0.7 [1; 2] = Raise InvalidParameterError /\
  detect_anomalies_isolation_forest checked_fit_predict [1; 2] 0.7
  = Raise InvalidParameterError /\
  detect_anomalies_isolation_forest checked_fit_predict [1; 2] 0.7
  <> Ok (repeat false (length [1; 2]%R)).
Proof.
  assert (detect_anomalies_isolation_forest checked_fit_predict [1; 2] 0.7
          = Raise InvalidParameterError) as H.
  { unfold detect_anomalies_isolation_forest. cbn [length Nat.ltb Nat.leb].
    now rewrite checked_fit_predict_rejects. }
  split; [exact checked_fit_predict_rejects |].
  split; [exact H |]. rewrite H. discriminate.
Qed.

(** ** One iteration of the loop *)

(** The state after the data generation and the appends. *)
Lemma advance_state (i : tick_input) (s : session_state) :
  let p := Rmax (price s
                 + (drift_draw i
                    + (if Np.Rltb (rand_draw i) 0.05 then shock_draw i else 0)))
                10 in
  snd (advance i s)
  = mkState (running s) (append p (data s)) (anomaly_log s) p
            (all_data s ++ [p]) (all_anomalies s) (time_step s + 1).
Proof. reflexivity. Qed.

Lemma loop_body_unfold (fit_predict : fit_predict_t) (c : controls)
    (i : tick_input) (s : session_state) :
  loop_body fit_predict c i s
  = detect_newest fit_predict c i (snd (advance i s)).
Proof. reflexivity. Qed.

(** The detection block when the window is below the configured size. *)
Lemma detect_newest_skip (fit_predict : fit_predict_t) (c : controls)
    (i : tick_input) (s : session_state) :
  (Z.of_nat (length (items (data s))) < window_size c)%Z ->
  detect_newest fit_predict c i s = (Ok None, s).
Proof.
  intro H. unfold detect_newest, bind, get.
  destruct (Z.geb_spec (Z.of_nat (length (items (data s)))) (window_size c));
    [lia | reflexivity].
Qed.

(** The state after an anomaly has been recorded for the value [x]. *)
Lemma detect_newest_run (fit_predict : fit_predict_t) (c : controls)
    (i : tick_input) (s : session_state) :
  (window_size c <= Z.of_nat (length (items (data s))))%Z ->
  detect_newest fit_predict c i s
  = match run_detector fit_predict (method c) (items (data s)) with
    | Raise e => (Raise e, s)
    | Ok anomalies =>
        match index_last anomalies with
        | Raise e => (Raise e, s)
        | Ok false => (Ok (Some anomalies), s)
        | Ok true =>
            match index_last (items (data s)) with
            | Raise e => (Raise e, s)
            | Ok x =>
                let log := (clock i, x) :: anomaly_log s in
                (Ok (Some anomalies),
                 mkState (running s) (data s)
                         (if (50 <? length log)%nat then firstn 50 log
                          else log)
                         (price s) (all_data s)
                         (all_anomalies s ++ [((time_step s - 1)%Z, x)])
                         (time_step s))
            end
        end
    end.
Proof.
  intro H. unfold detect_newest, bind, get, lift.
  destruct (Z.geb_spec (Z.of_nat (length (items (data s)))) (window_size c));
    [| lia].
  destruct (run_detector fit_predict (method c) (items (data s)))
    as [anomalies | e]; [| reflexivity].
  destruct (index_last anomalies) as [[|] | e]; try reflexivity.
  destruct (index_last (items (data s))) as [x | e]; [| reflexivity].
  unfold modify, ret, set_anomaly_log, set_all_anomalies.
  cbn [running data anomaly_log price all_data all_anomalies time_step].
  cbv zeta. unfold log_entry.
  destruct (50 <? length ((clock i, x) :: anomaly_log s))%nat; reflexivity.
Qed.

Lemma index_last_snoc {A : Type} (l : list A) (x : A) :
  index_last (l ++ [x]) = Ok x.
Proof.
  induction l as [| a t IH]; [reflexivity |].
  cbn [app index_last]. destruct (t ++ [x]) eqn:E; [| exact IH].
  now destruct t.
Qed.

Lemma index_last_tl {A : Type} (l : list A) (y : A) :
  index_last (tl l) = Ok y -> index_last l = Ok y.
Proof.
  destruct l as [| a t]; [intro H; exact H |].
  cbn [tl]. destruct t; [discriminate | intro H; exact H].
Qed.

(** The newest element of the window is the value just pushed. *)
Lemma index_last_append (x y : R) (d : deque) :
  index_last (items (append x d)) = Ok y -> y = x.
Proof.
  unfold append. cbn [items]. intro H.
  assert (index_last (items d ++ [x]) = Ok y) as H'.
  { destruct (_ <? _)%Z; [now apply index_last_tl | exact H]. }
  rewrite index_last_snoc in H'. now injection H'.
Qed.

Lemma index_last_nonempty {A : Type} (l : list A) :
  (1 <= length l)%nat -> exists y, index_last l = Ok y.
Proof.
  induction l as [| a t IH]; cbn [length]; intro H; [lia |].
  destruct t as [| b t']; [now exists a |].
  apply IH. cbn [length]. lia.
Qed.

Lemma append_length_room (x : R) (d : deque) :
  (Z.of_nat (length (items d)) < maxlen d)%Z ->
  length (items (append x d)) = S (length (items d)).
Proof.
  intro H. unfold append. cbn [items]. rewrite length_app. cbn [length].
  destruct (Z.ltb_spec (maxlen d) (Z.of_nat (length (items d) + 1)));
    [lia |].
  rewrite length_app. cbn [length]. lia.
Qed.

(** Below the configured size the iteration only advances the state. *)
Lemma loop_body_skip (fit_predict : fit_predict_t) (c : controls)
    (i : tick_input) (s : session_state) :
  (Z.of_nat (length (items (data (snd (advance i s))))) < window_size c)%Z ->
  loop_body fit_predict c i s = (Ok None, snd (advance i s)).
Proof. intro H. rewrite loop_body_unfold. now apply detect_newest_skip. Qed.

(** An exception in an iteration ends the loop: the iterations after it do
    not take place. *)
Lemma main_loop_stops_on_failure (fit_predict : fit_predict_t) (c : controls)
    (i : tick_input) (rest : list tick_input) (s s' : session_state)
    (e : exn) :
  running s = true ->
  loop_body fit_predict c i s = (Raise e, s') ->
  main_loop fit_predict c (i :: rest) s = (Raise e, s').
Proof.
  intros Hrun Hbody. cbn [main_loop]. unfold bind at 1, get at 1.
  rewrite Hrun. unfold bind at 1. now rewrite Hbody.
Qed.

(** The iterations of a run that take place before the window is full. *)
Lemma main_loop_filling (fit_predict : fit_predict_t) (c : controls)
    (inputs : list tick_input) (s0 : session_state) :
  running s0 = true ->
  maxlen (data s0) = window_size c ->
  (Z.of_nat (length (items (data s0)) + length inputs) < window_size c)%Z ->
  let s := snd (main_loop fit_predict c inputs s0) in
  fst (main_loop fit_predict c inputs s0) = Ok tt /\
  running s = true /\
  maxlen (data s) = window_size c /\
  length (items (data s)) = (length (items (data s0)) + length inputs)%nat /\
  all_anomalies s = all_anomalies s0 /\
  anomaly_log s = anomaly_log s0.
Proof.
  revert s0. induction inputs as [| i rest IH]; intros s0 Hrun Hcap Hlen.
  - cbn. repeat split; try assumption. lia.
  - cbn [length] in Hlen.
    assert (length (items (data (snd (advance i s0))))
            = S (length (items (data s0)))) as Hgrow.
    { rewrite advance_state. cbn [data]. apply append_length_room. lia. }
    assert (loop_body fit_predict c i s0 = (Ok None, snd (advance i s0)))
      as Hbody.
    { apply loop_body_skip. rewrite Hgrow. lia. }
    set (s1 := snd (advance i s0)) in *.
    assert (running s1 = true) as Hrun1 by exact Hrun.
    assert (maxlen (data s1) = window_size c) as Hcap1 by exact Hcap.
    assert (Z.of_nat (length (items (data s1)) + length rest)
            < window_size c)%Z as Hlen1 by (rewrite Hgrow; lia).
    destruct (IH s1 Hrun1 Hcap1 Hlen1) as (H1 & H2 & H3 & H4 & H5 & H6).
    assert (main_loop fit_predict c (i :: rest) s0
            = main_loop fit_predict c rest s1) as Hstep.
    { cbn [main_loop]. unfold bind at 1, get at 1. rewrite Hrun.
      unfold bind at 1. now rewrite Hbody. }
    rewrite Hstep. rewrite Hgrow in H4.
    cbv zeta. repeat split; try assumption.
    cbn [length]. lia.
Qed.

(** C6.  On every iteration whose window, after the push, is shorter than the
    configured size, no detector is run (the iteration returns no detection
    result, whatever the detector) and no anomaly is recorded.  In a run that
    starts on an empty window of the configured size, this is the case of
    every iteration before the one that fills the window; on the iteration
    that fills it the selected detector is run on the full window, and an
    anomaly record for the pushed value is appended exactly when the last
    flag of the detector is true. *)
Theorem detection_waits_for_full_window (fit_predict : fit_predict_t)
    (c : controls) (s0 : session_state) (pre : list tick_input)
    (i : tick_input)
    (Hrun : running s0 = true)
    (Hempty : items (data s0) = [])
    (Hcap : maxlen (data s0) = window_size c) :
  let s := snd (main_loop fit_predict c pre s0) in
  let s1 := snd (advance i s) in
  (forall (t : session_state) (j : tick_input),
     let t1 := snd (advance j t) in
     (Z.of_nat (length (items (data t1))) < window_size c)%Z ->
     loop_body fit_predict c j t = (Ok None, t1) /\
     all_anomalies t1 = all_anomalies t /\
     anomaly_log t1 = anomaly_log t) /\
  ((Z.of_nat (S (length pre)) < window_size c)%Z ->
     length (items (data s1)) = S (length pre) /\
     loop_body fit_predict c i s = (Ok None, s1) /\
     all_anomalies s1 = all_anomalies s0) /\
  ((Z.of_nat (S (length pre)) = window_size c)%Z ->
     length (items (data s1)) = S (length pre) /\
     all_anomalies s = all_anomalies s0 /\
     match run_detector fit_predict (method c) (items (data s1)) with
     | Raise e => loop_body fit_predict c i s = (Raise e, s1)
     | Ok anomalies =>
         match index_last anomalies with
         | Raise e => loop_body fit_predict c i s = (Raise e, s1)
         | Ok false => loop_body fit_predict c i s = (Ok (Some anomalies), s1)
         | Ok true =>
             fst (loop_body fit_predict c i s) = Ok (Some anomalies) /\
             all_anomalies (snd (loop_body fit_predict c i s))
             = all_anomalies s0 ++ [(time_step s, price s1)]
         end
     end).
Proof.
  intros s s1.
  assert (forall (t : session_state) (j : tick_input),
            let t1 := snd (advance j t) in
            (Z.of_nat (length (items (data t1))) < window_size c)%Z ->
            loop_body fit_predict c j t = (Ok None, t1) /\
            all_anomalies t1 = all_anomalies t /\
            anomaly_log t1 = anomaly_log t) as Hskip.
  { intros t j t1 Hshort. split; [now apply loop_body_skip |].
    split; reflexivity. }
  assert ((Z.of_nat (S (length pre)) <= window_size c)%Z ->
          length (items (data s1)) = S (length pre) /\
          all_anomalies s = all_anomalies s0) as Hfill.
  { intro Hle.
    destruct (main_loop_filling fit_predict c pre s0 Hrun Hcap)
      as (_ & _ & Hcap' & Hlen' & Hanom & _).
    { rewrite Hempty. cbn [length]. lia. }
    fold s in Hcap', Hlen', Hanom. rewrite Hempty in Hlen'.
    cbn [length Nat.add] in Hlen'. split; [| exact Hanom].
    unfold s1. rewrite advance_state. cbn [data].
    rewrite append_length_room; lia. }
  split; [exact Hskip |]. split.
  - intro Hlt. destruct Hfill as [Hlen Hanom]; [lia |].
    destruct (Hskip s i) as (Hbody & Ha & _); [fold s1; lia |].
    fold s1 in Hbody, Ha.
    split; [exact Hlen |]. split; [exact Hbody |]. now rewrite Ha.
  - intro Heq. destruct Hfill as [Hlen Hanom]; [lia |].
    split; [exact Hlen |]. split; [exact Hanom |].
    rewrite loop_body_unfold. fold s1.
    rewrite detect_newest_run by lia.
    destruct (run_detector fit_predict (method c) (items (data s1)))
      as [anomalies | e]; [| reflexivity].
    destruct (index_last anomalies) as [[|] | e]; try reflexivity.
    destruct (index_last_nonempty (items (data s1))) as [x Hx]; [lia |].
    rewrite Hx. cbv zeta. cbn [fst snd all_anomalies].
    split; [reflexivity |].
    assert (x = price s1) as ->.
    { unfold s1 in Hx. rewrite advance_state in Hx. cbn [data] in Hx.
      apply index_last_append in Hx. rewrite Hx.
      unfold s1. rewrite advance_state. reflexivity. }
    replace (all_anomalies s1) with (all_anomalies s0) by now rewrite <- Hanom.
    replace (time_step s1 - 1)%Z with (time_step s); [reflexivity |].
    unfold s1. rewrite advance_state. cbn [time_step]. lia.
Qed.

Lemma detection_waits_for_full_window_witness :
  let c := mkControls true false false (Z_Score 3) 100 in
  let s0 := set_running true initial_state in
  let i := mkTick 0 1 0 "12:00:00" in
  (running s0 = true /\ items (data s0) = [] /\
   maxlen (data s0) = window_size c) /\
  loop_body checked_fit_predict c i s0 = (Ok None, snd (advance i s0)).
Proof.
  intros c s0 i. split.
  - repeat split.
  - destruct (detection_waits_for_full_window checked_fit_predict c s0 [] i)
      as (_ & H & _);
      [reflexivity | reflexivity | reflexivity | apply H; cbn; lia].
Defined.

(** ** The history and the anomaly records *)

Lemma bind_preserves {A B : Type} (P : session_state -> Prop)
    (m : M A) (k : A -> M B) (s : session_state) :
  P s ->
  (forall t, P t -> P (snd (m t))) ->
  (forall a t, P t -> P (snd (k a t))) ->
  P (snd (bind m k s)).
Proof.
  intros Hs Hm Hk. unfold bind. specialize (Hm s Hs).
  destruct (m s) as [[a | e] s']; cbn [snd] in *; [now apply Hk | exact Hm].
Qed.

Lemma history_ok_same (s s' : session_state) :
  all_data s' = all_data s ->
  all_anomalies s' = all_anomalies s ->
  time_step s' = time_step s ->
  history_ok s -> history_ok s'.
Proof.
  unfold history_ok. intros -> -> ->. exact (fun H => H).
Qed.

Lemma record_ok_in_range (history : list R) (r : Z * R) :
  record_ok history r -> (0 <= fst r < Z.of_nat (length history))%Z.
Proof.
  intros [Hpos Hnth].
  assert (Z.to_nat (fst r) < length history)%nat as H.
  { apply nth_error_Some. now rewrite Hnth. }
  lia.
Qed.

Lemma record_ok_grows (history : list R) (p : R) (r : Z * R) :
  record_ok history r -> record_ok (history ++ [p]) r.
Proof.
  intros [Hpos Hnth]. split; [exact Hpos |].
  rewrite nth_error_app1; [exact Hnth |].
  apply nth_error_Some. now rewrite Hnth.
Qed.

Lemma record_ok_newest (history : list R) (p : R) :
  record_ok (history ++ [p]) (Z.of_nat (length history), p).
Proof.
  split; cbn [fst snd]; [lia |].
  rewrite Nat2Z.id, nth_error_app2 by lia.
  now rewrite Nat.sub_diag.
Qed.

Lemma StronglySorted_snoc (l : list Z) (x : Z) :
  StronglySorted Z.lt l -> Forall (fun a => (a < x)%Z) l ->
  StronglySorted Z.lt (l ++ [x]).
Proof.
  induction 1 as [| a t Ht IH Ha]; intro Hall; cbn [app].
  - repeat constructor.
  - inversion Hall as [| ? ? Hax Hall']; subst.
    constructor; [now apply IH |].
    apply Forall_app. split; [exact Ha | now repeat constructor].
Qed.

(** The state after the pushes still has a sound history. *)
Lemma advance_history_ok (i : tick_input) (s : session_state) :
  history_ok s -> history_ok (snd (advance i s)).
Proof.
  intros (Htime & Hrec & Hsorted). rewrite advance_state. cbv zeta.
  unfold history_ok. cbn [time_step all_data all_anomalies].
  split; [rewrite length_app; cbn [length]; lia |].
  split; [| exact Hsorted].
  apply (Forall_impl _ (record_ok_grows (all_data s) _) Hrec).
Qed.

(** One iteration records at most one anomaly, for the index and the value
    of the observation that it has just pushed. *)
Lemma loop_body_history_ok (fit_predict : fit_predict_t) (c : controls)
    (i : tick_input) (s : session_state) :
  history_ok s ->
  let s1 := snd (advance i s) in
  let s' := snd (loop_body fit_predict c i s) in
  history_ok s' /\
  all_data s' = all_data s ++ [price s1] /\
  (all_anomalies s' = all_anomalies s \/
   all_anomalies s' = all_anomalies s ++ [(time_step s, price s1)]).
Proof.
  intros Hs s1 s'.
  pose proof (advance_history_ok i s Hs) as Hs1. fold s1 in Hs1.
  assert (all_data s1 = all_data s ++ [price s1]) as Hdata.
  { unfold s1. rewrite advance_state. reflexivity. }
  assert (all_anomalies s1 = all_anomalies s) as Hanom.
  { unfold s1. rewrite advance_state. reflexivity. }
  assert (time_step s1 = (time_step s + 1)%Z) as Htime.
  { unfold s1. rewrite advance_state. reflexivity. }
  assert (history_ok s1 /\
          all_data s1 = all_data s ++ [price s1] /\
          (all_anomalies s1 = all_anomalies s \/
           all_anomalies s1 = all_anomalies s ++ [(time_step s, price s1)]))
    as Hsame.
  { split; [exact Hs1 |]. split; [exact Hdata |]. now left. }
  subst s'. rewrite loop_body_unfold. fold s1.
  destruct (Z.ltb_spec (Z.of_nat (length (items (data s1)))) (window_size c))
    as [Hshort | Hfull].
  { now rewrite detect_newest_skip. }
  rewrite detect_newest_run by exact Hfull.
  destruct (run_detector fit_predict (method c) (items (data s1)))
    as [anomalies | e]; [| exact Hsame].
  destruct (index_last anomalies) as [[|] | e]; try exact Hsame.
  destruct (index_last (items (data s1))) as [x | e] eqn:Hx;
    [| exact Hsame].
  clear Hsame. cbv zeta. cbn [snd].
  assert (x = price s1) as ->.
  { unfold s1 in Hx. rewrite advance_state in Hx. cbn [data] in Hx.
    apply index_last_append in Hx. rewrite Hx.
    unfold s1. rewrite advance_state. reflexivity. }
  replace (time_step s1 - 1)%Z with (time_step s) by lia.
  unfold history_ok. cbn [time_step all_data all_anomalies].
  rewrite Hanom.
  destruct Hs as (Hts & Hrec & Hsorted).
  destruct Hs1 as (Hts1 & Hrec1 & _).
  split; [| split; [exact Hdata | now right]].
  split; [exact Hts1 |]. split.
  - apply Forall_app. split; [now rewrite <- Hanom |].
    constructor; [| constructor].
    rewrite Hdata, Hts. apply record_ok_newest.
  - rewrite map_app. cbn [map fst].
    apply StronglySorted_snoc; [exact Hsorted |].
    apply Forall_map.
    apply (Forall_impl _ (fun r H => proj2 (record_ok_in_range _ r H))) in Hrec.
    now rewrite Hts.
Qed.

Lemma main_loop_history_ok (fit_predict : fit_predict_t) (c : controls)
    (inputs : list tick_input) (s : session_state) :
  history_ok s -> history_ok (snd (main_loop fit_predict c inputs s)).
Proof.
  revert s. induction inputs as [| i rest IH]; intros s Hs; [exact Hs |].
  cbn [main_loop]. unfold bind at 1, get. cbn [fst snd].
  destruct (running s); [| exact Hs].
  apply bind_preserves; [exact Hs | |].
  - intros t Ht. now apply loop_body_history_ok.
  - intros _ t Ht. now apply IH.
Qed.

Lemma sidebar_buttons_history_ok (c : controls) (s : session_state) :
  history_ok s -> history_ok (snd (sidebar_buttons c s)).
Proof.
  intro Hs. unfold sidebar_buttons.
  destruct (start_button c), (stop_button c), (reset_button c);
    cbv [bind modify ret fst snd];
    try (now apply (history_ok_same s); [reflexivity .. | exact Hs]);
    (split; [reflexivity | split; constructor]).
Qed.

Lemma resize_history_ok (n : Z) (s : session_state) :
  history_ok s -> history_ok (snd (resize n s)).
Proof.
  intro Hs. unfold resize, bind, get, lift.
  destruct (negb (n =? maxlen (data s))%Z); [| exact Hs].
  destruct (deque_new (items (data s)) n) as [d | e]; [| exact Hs].
  now apply (history_ok_same s).
Qed.

Lemma script_history_ok (fit_predict : fit_predict_t) (c : controls)
    (inputs : list tick_input) (s : session_state) :
  history_ok s -> history_ok (snd (script fit_predict c inputs s)).
Proof.
  intro Hs. unfold script.
  apply bind_preserves; [exact Hs | |].
  - intros t Ht. now apply sidebar_buttons_history_ok.
  - intros _ t Ht. apply bind_preserves; [exact Ht | |].
    + intros u Hu. now apply resize_history_ok.
    + intros _ u Hu. now apply main_loop_history_ok.
Qed.

Lemma session_history_ok (fit_predict : fit_predict_t)
    (runs : list (controls * list tick_input)) (s : session_state) :
  history_ok s -> history_ok (session fit_predict runs s).
Proof.
  revert s. induction runs as [| r rest IH]; intros s Hs; [exact Hs |].
  cbn [session fold_left]. apply IH. now apply script_history_ok.
Qed.

Lemma initial_history_ok : history_ok initial_state.
Proof. split; [reflexivity | split; constructor]. Qed.

(** C10.  In every state that a session reaches from the initial state,
    every anomaly record [(index, value)] of the anomaly history points at
    its value in the full data history ([all_data[index] = value]), the
    recorded indices are strictly increasing, and [time_step] is the length
    of the data history.  An iteration of the loop from such a state leaves
    the records as they are or appends one record, whose index is the
    zero-based time step of the value just pushed and whose value is that
    value. *)
Theorem anomaly_records_point_at_history (fit_predict : fit_predict_t)
    (runs : list (controls * list tick_input)) :
  let s := session fit_predict runs initial_state in
  time_step s = Z.of_nat (length (all_data s)) /\
  (forall index value, In (index, value) (all_anomalies s) ->
     (0 <= index)%Z /\ nth_error (all_data s) (Z.to_nat index) = Some value) /\
  StronglySorted Z.lt (map fst (all_anomalies s)) /\
  (forall (c : controls) (i : tick_input),
     let pushed_value := price (snd (advance i s)) in
     let s' := snd (loop_body fit_predict c i s) in
     all_data s' = all_data s ++ [pushed_value] /\
     nth_error (all_data s') (Z.to_nat (time_step s)) = Some pushed_value /\
     (all_anomalies s' = all_anomalies s \/
      all_anomalies s' = all_anomalies s ++ [(time_step s, pushed_value)])).
Proof.
  intro s.
  pose proof (session_history_ok fit_predict runs initial_state
                initial_history_ok) as Hs.
  fold s in Hs. pose proof Hs as (Htime & Hrec & Hsorted).
  split; [exact Htime |]. split; [| split; [exact Hsorted |]].
  - intros index value Hin. rewrite Forall_forall in Hrec.
    exact (Hrec (index, value) Hin).
  - intros c i pushed_value s'.
    destruct (loop_body_history_ok fit_predict c i s Hs) as (_ & Hdata & Hanom).
    fold s' in Hdata, Hanom. fold pushed_value in Hdata, Hanom.
    split; [exact Hdata |]. split; [| exact Hanom].
    rewrite Hdata, Htime, Nat2Z.id, nth_error_app2 by lia.
    now rewrite Nat.sub_diag.
Qed.

(** ** The window size *)

Lemma resize_runs (n : Z) (s : session_state) :
  (0 <= n)%Z ->
  fst (resize n s) = Ok tt /\ maxlen (data (snd (resize n s))) = n.
Proof.
  intro Hn. unfold resize, bind, get, lift.
  destruct (Z.eqb_spec n (maxlen (data s))) as [-> | Hne]; cbn [negb].
  - split; reflexivity.
  - destruct (deque_new_lastn (items (data s)) n Hn) as (d & Hd & Hmax & _).
    rewrite Hd. split; [reflexivity | exact Hmax].
Qed.

(** The resize of the script is the resize operation of the window. *)
Lemma resize_as_window_op (n : Z) (s : session_state) :
  match apply_op (Resize n) (data s) with
  | Ok d => fst (resize n s) = Ok tt /\ data (snd (resize n s)) = d
  | Raise e => resize n s = (Raise e, s)
  end.
Proof.
  unfold resize, bind, get, lift. cbn [apply_op].
  destruct (negb (n =? maxlen (data s))%Z).
  - destruct (deque_new (items (data s)) n) as [d | e].
    + split; reflexivity.
    + reflexivity.
  - split; reflexivity.
Qed.

Lemma sidebar_buttons_runs (c : controls) (s : session_state) :
  fst (sidebar_buttons c s) = Ok tt.
Proof.
  unfold sidebar_buttons.
  destruct (start_button c), (stop_button c), (reset_button c); reflexivity.
Qed.

(** ** Executions *)

Ltac decide_R :=
  repeat (cbn [Np.sort Np.insert map nth];
          match goal with
          | |- context [Rle_dec ?a ?b] =>
              destruct (Rle_dec a b);
              [try (exfalso; lra) | try (exfalso; lra)]
          | |- context [Rlt_dec ?a ?b] =>
              destruct (Rlt_dec a b);
              [try (exfalso; lra) | try (exfalso; lra)]
          end).

Lemma Rabs_nonneg_eq (a : R) : 0 <= a -> Rabs a = a.
Proof. intro H. apply Rabs_right. lra. Qed.

(** The MAD detector on four values of 10 followed by 100, threshold 3.5:
    only the last value is flagged. *)
Example mad_on_a_spike :
  detect_anomalies_mad [10; 10; 10; 10; 100] 3.5
  = [false; false; false; false; true].
Proof.
  unfold detect_anomalies_mad. cbn [length Nat.ltb Nat.leb].
  assert (Np.median [10; 10; 10; 10; 100] = 10) as Hm.
  { unfold Np.median. cbn [length Nat.even Nat.div Nat.divmod fst].
    decide_R. reflexivity. }
  cbv zeta. rewrite Hm. cbn [map].
  replace (10 - 10) with 0 by lra. replace (100 - 10) with 90 by lra.
  rewrite Rabs_R0, (Rabs_nonneg_eq 90) by lra.
  assert (Np.median [0; 0; 0; 0; 90] = 0) as Hmad.
  { unfold Np.median. cbn [length Nat.even Nat.div Nat.divmod fst].
    decide_R. reflexivity. }
  rewrite Hmad.
  replace (0.6745 * 0 / (0 + 1e-9)) with 0 by lra.
  replace (0.6745 * 90 / (0 + 1e-9)) with 60705000000 by lra.
  rewrite Rabs_R0, (Rabs_nonneg_eq 60705000000) by lra.
  unfold Np.Rgtb. decide_R. reflexivity.
Qed.

(** The Z-Score detector on the same series: the mean is 28 and the standard
    deviation 36, the spike is part of both, and its score stays just below
    2. *)
Example zscore_on_a_spike :
  Np.mean [10; 10; 10; 10; 100] = 28 /\
  Np.std [10; 10; 10; 10; 100] = 36 /\
  detect_anomalies_zscore [10; 10; 10; 10; 100] 3
  = [false; false; false; false; false] /\
  detect_anomalies_zscore [10; 10; 10; 10; 100] 1.9
  = [false; false; false; false; true].
Proof.
  assert (Np.mean [10; 10; 10; 10; 100] = 28) as Hm.
  { unfold Np.mean. cbn [Np.sum length INR]. field. }
  assert (Np.std [10; 10; 10; 10; 100] = 36) as Hs.
  { unfold Np.std, Np.var. rewrite Hm. unfold Np.mean.
    cbn [map Np.sum length INR].
    replace (_ / _) with (36 * 36) by field.
    apply sqrt_square. lra. }
  assert (0 < 36 + 1e-9) as Hden by lra.
  assert (forall x a, a * (36 + 1e-9) < x - 28 ->
                      a < (x - 28) / (36 + 1e-9)) as Hlow.
  { intros x a H. apply Rmult_lt_reg_r with (36 + 1e-9); [exact Hden |].
    unfold Rdiv. rewrite Rmult_assoc, Rinv_l by lra. lra. }
  assert (forall x a, x - 28 < a * (36 + 1e-9) ->
                      (x - 28) / (36 + 1e-9) < a) as Hhigh.
  { intros x a H. apply Rmult_lt_reg_r with (36 + 1e-9); [exact Hden |].
    unfold Rdiv. rewrite Rmult_assoc, Rinv_l by lra. lra. }
  assert (forall x t, - t * (36 + 1e-9) < x - 28 < t * (36 + 1e-9) ->
            Np.Rgtb (Rabs ((x - 28) / (36 + 1e-9))) t = false) as Hin.
  { intros x t [H1 H2]. apply Rgtb_false_iff. apply Rabs_le. split.
    - left. apply Hlow. lra.
    - left. now apply Hhigh. }
  assert (forall x t, t * (36 + 1e-9) < x - 28 -> 0 <= t ->
            Np.Rgtb (Rabs ((x - 28) / (36 + 1e-9))) t = true) as Hout.
  { intros x t H Ht. apply Rgtb_true_iff.
    pose proof (Hlow x t H) as H'. rewrite Rabs_nonneg_eq; lra. }
  split; [exact Hm |]. split; [exact Hs |].
  unfold detect_anomalies_zscore. cbn [length Nat.ltb Nat.leb]. cbv zeta.
  rewrite Hm, Hs. cbn [map].
  split.
  - rewrite !Hin by lra. reflexivity.
  - rewrite (Hout 100) by lra. rewrite !Hin by lra. reflexivity.
Qed.

Lemma mad_on_a_jump :
  detect_anomalies_mad [100; 100; 100; 100; 100; 100; 100; 100; 100; 150] 3.5
  = [false; false; false; false; false; false; false; false; false; true].
Proof.
  unfold detect_anomalies_mad. cbn [length Nat.ltb Nat.leb].
  assert (Np.median [100; 100; 100; 100; 100; 100; 100; 100; 100; 150] = 100)
    as Hm.
  { unfold Np.median. cbn [length Nat.even Nat.div Nat.divmod fst Nat.sub].
    decide_R. cbn [nth]. lra. }
  cbv zeta. rewrite Hm. cbn [map].
  replace (100 - 100) with 0 by lra. replace (150 - 100) with 50 by lra.
  rewrite Rabs_R0, (Rabs_nonneg_eq 50) by lra.
  assert (Np.median [0; 0; 0; 0; 0; 0; 0; 0; 0; 50] = 0) as Hmad.
  { unfold Np.median. cbn [length Nat.even Nat.div Nat.divmod fst Nat.sub].
    decide_R. cbn [nth]. lra. }
  rewrite Hmad.
  replace (0.6745 * 0 / (0 + 1e-9)) with 0 by lra.
  replace (0.6745 * 50 / (0 + 1e-9)) with 33725000000 by lra.
  rewrite Rabs_R0, (Rabs_nonneg_eq 33725000000) by lra.
  unfold Np.Rgtb. decide_R. reflexivity.
Qed.

(** A run of the script from the initial state, window size 10: nine quiet
    iterations record nothing; the tenth fills the window, jumps to 150 and
    is recorded at index 9. *)
Example first_full_window_anomaly :
  let s := snd (script checked_fit_predict demo_controls
                  (repeat quiet 9 ++ [jump]) initial_state) in
  all_anomalies s = [(9%Z, 150)] /\
  time_step s = 10%Z /\
  anomaly_log s = [("12:00:01"%string, 150)] /\
  all_anomalies (snd (script checked_fit_predict demo_controls
                        (repeat quiet 9) initial_state)) = [].
Proof.
  assert (Rmax (100.0 + (0 + 0)) 10 = 100) as H0.
  { unfold Rmax. destruct (Rle_dec _ _); lra. }
  assert (Rmax (100 + (0 + 0)) 10 = 100) as H1.
  { unfold Rmax. destruct (Rle_dec _ _); lra. }
  assert (Rmax (100 + (50 + 0)) 10 = 150) as H2.
  { unfold Rmax. destruct (Rle_dec _ _); lra. }
  pose proof mad_on_a_jump as Hmad.
  cbv - [Rplus Rminus Rmult Rdiv Rinv Ropp Rmax Rabs Rlt_dec Rle_dec IZR
         detect_anomalies_mad] in *.
  destruct (Rlt_dec 1 (5 * / 100)) as [Hlt | _]; [exfalso; lra |].
  rewrite H0, !H1, H2, Hmad.
  repeat split.
Qed.

(** ** Invariants of a session *)

Section Preservation.

(** A property of the session state that the buttons, the resize and one
    iteration of the loop keep is kept by a whole session. *)
Variable fit_predict : fit_predict_t.
Variable P : session_state -> Prop.
Hypothesis P_buttons : forall c s, P s -> P (snd (sidebar_buttons c s)).
Hypothesis P_resize : forall n s, P s -> P (snd (resize n s)).
Hypothesis P_loop_body :
  forall c i s, P s -> P (snd (loop_body fit_predict c i s)).

Lemma main_loop_preserves (c : controls) (inputs : list tick_input)
    (s : session_state) :
  P s -> P (snd (main_loop fit_predict c inputs s)).
Proof.
  revert s. induction inputs as [| i rest IH]; intros s Hs; [exact Hs |].
  cbn [main_loop]. unfold bind at 1, get. cbn [fst snd].
  destruct (running s); [| exact Hs].
  apply bind_preserves; [exact Hs | |].
  - intros t Ht. now apply P_loop_body.
  - intros _ t Ht. now apply IH.
Qed.

Lemma script_preserves (c : controls) (inputs : list tick_input)
    (s : session_state) :
  P s -> P (snd (script fit_predict c inputs s)).
Proof.
  intro Hs. unfold script.
  apply bind_preserves; [exact Hs | |].
  - intros t Ht. now apply P_buttons.
  - intros _ t Ht. apply bind_preserves; [exact Ht | |].
    + intros u Hu. now apply P_resize.
    + intros _ u Hu. now apply main_loop_preserves.
Qed.

Lemma session_preserves (runs : list (controls * list tick_input))
    (s : session_state) :
  P s -> P (session fit_predict runs s).
Proof.
  revert s. induction runs as [| r rest IH]; intros s Hs; [exact Hs |].
  cbn [session fold_left]. apply IH. now apply script_preserves.
Qed.

End Preservation.

Lemma clear_ok (d : deque) : deque_ok d -> deque_ok (clear d).
Proof. intros [Hcap _]. split; cbn; lia. Qed.

Lemma firstn_50_all {A : Type} (l : list A) :
  (if (50 <? length l)%nat then firstn 50 l else l) = firstn 50 l.
Proof.
  destruct (Nat.ltb_spec 50 (length l)); [reflexivity |].
  symmetry. now apply firstn_all2.
Qed.

(** The log after one more record. *)
Lemma log_follows_records (entries : list log_entry)
    (records : list (Z * R)) (e : log_entry) (r : Z * R) :
  snd e = snd r ->
  map snd entries = firstn 50 (rev (map snd records)) ->
  map snd (if (50 <? length (e :: entries))%nat
           then firstn 50 (e :: entries) else e :: entries)
  = firstn 50 (rev (map snd (records ++ [r]))).
Proof.
  intros He Hlog. rewrite firstn_50_all, map_app, rev_app_distr.
  cbn [map rev app]. rewrite <- He.
  change 50%nat with (S 49). rewrite !firstn_cons. cbn [map]. f_equal.
  unfold log_entry in *.
  rewrite <- firstn_map, Hlog, firstn_firstn. reflexivity.
Qed.

Lemma initial_session_ok : session_ok initial_state.
Proof.
  unfold session_ok, deque_ok, initial_state. cbn [data items maxlen length
    all_data price anomaly_log all_anomalies map rev].
  repeat split; try lia; try lra.
  - now exists [].
  - constructor.
Qed.

Lemma fresh_session_ok (d : deque) :
  deque_ok d -> session_ok (mkState false (clear d) [] 100.0 [] [] 0).
Proof.
  intro Hd. unfold session_ok.
  cbn [data all_data price anomaly_log all_anomalies map rev].
  split; [now apply clear_ok |].
  split; [exists []; reflexivity |].
  split; [constructor |].
  split; [lra | symmetry; apply firstn_nil].
Qed.

Lemma sidebar_buttons_session_ok (c : controls) (s : session_state) :
  session_ok s -> session_ok (snd (sidebar_buttons c s)).
Proof.
  intro Hs. destruct (reset_button c) eqn:Hreset.
  - unfold sidebar_buttons. rewrite Hreset.
    destruct Hs as (Hd & _).
    destruct (start_button c), (stop_button c);
      cbv [bind modify ret fst snd];
      exact (fresh_session_ok (data s) Hd).
  - unfold sidebar_buttons. rewrite Hreset.
    destruct (start_button c), (stop_button c);
      cbv [bind modify ret fst snd]; exact Hs.
Qed.

Lemma resize_session_ok (n : Z) (s : session_state) :
  session_ok s -> session_ok (snd (resize n s)).
Proof.
  intros Hs. pose proof Hs as (Hd & Hsuf & Hrest).
  unfold resize, bind, get, lift.
  destruct (negb (n =? maxlen (data s))%Z); [| exact Hs].
  destruct (deque_new (items (data s)) n) as [d |] eqn:Hnew;
    [| exact Hs].
  cbv [modify snd]. unfold session_ok, set_data.
  cbn [data all_data price anomaly_log all_anomalies].
  destruct (deque_new_ok _ _ _ Hnew) as [Hd' Hmax].
  split; [exact Hd' |]. split; [| exact Hrest].
  destruct (deque_new_lastn (items (data s)) n) as (d2 & Hnew2 & _ & Hitems).
  { destruct Hd'. lia. }
  rewrite Hnew in Hnew2. injection Hnew2 as <-.
  rewrite Hitems. now apply suffix_of_skipn.
Qed.

Lemma advance_session_ok (i : tick_input) (s : session_state) :
  session_ok s -> session_ok (snd (advance i s)).
Proof.
  intros (Hd & Hsuf & Hfloor & Hprice & Hlog).
  rewrite advance_state. cbv zeta. unfold session_ok.
  cbn [data all_data price anomaly_log all_anomalies].
  split; [now apply append_ok |].
  split; [now apply suffix_of_append |].
  split; [| split; [apply Rmax_r | exact Hlog]].
  apply Forall_app. split; [exact Hfloor |].
  constructor; [apply Rmax_r | constructor].
Qed.

Lemma detect_newest_session_ok (fit_predict : fit_predict_t) (c : controls)
    (i : tick_input) (s : session_state) :
  session_ok s -> session_ok (snd (detect_newest fit_predict c i s)).
Proof.
  intro Hs.
  destruct (Z.ltb_spec (Z.of_nat (length (items (data s)))) (window_size c))
    as [Hshort | Hfull].
  { now rewrite detect_newest_skip. }
  rewrite detect_newest_run by exact Hfull.
  destruct (run_detector fit_predict (method c) (items (data s)))
    as [anomalies | e]; [| exact Hs].
  destruct (index_last anomalies) as [[|] | e]; try exact Hs.
  destruct (index_last (items (data s))) as [x | e]; [| exact Hs].
  destruct Hs as (Hd & Hsuf & Hfloor & Hprice & Hlog).
  cbv zeta. cbn [snd]. unfold session_ok.
  cbn [data all_data price anomaly_log all_anomalies].
  repeat (split; [assumption |]).
  now apply log_follows_records.
Qed.

Lemma loop_body_session_ok (fit_predict : fit_predict_t) (c : controls)
    (i : tick_input) (s : session_state) :
  session_ok s -> session_ok (snd (loop_body fit_predict c i s)).
Proof.
  intro Hs. rewrite loop_body_unfold.
  now apply detect_newest_session_ok, advance_session_ok.
Qed.

Lemma session_session_ok (fit_predict : fit_predict_t)
    (runs : list (controls * list tick_input)) :
  session_ok (session fit_predict runs initial_state).
Proof.
  apply session_preserves.
  - intros c s. apply sidebar_buttons_session_ok.
  - intros n s. apply resize_session_ok.
  - intros c i s. apply loop_body_session_ok.
  - exact initial_session_ok.
Qed.

Lemma suffix_of_Forall (Q : R -> Prop) (l h : list R) :
  suffix_of l h -> Forall Q h -> Forall Q l.
Proof. intros [pre ->] H. now apply Forall_app in H. Qed.

(** X1.  In every state that a session reaches, the calculation window is
    within its capacity and holds the most recent values of the full data
    history, in the same order. *)
Theorem window_is_end_of_history (fit_predict : fit_predict_t)
    (runs : list (controls * list tick_input)) :
  let s := session fit_predict runs initial_state in
  let n := length (items (data s)) in
  (Z.of_nat n <= maxlen (data s))%Z /\
  (n <= length (all_data s))%nat /\
  items (data s) = lastn n (all_data s).
Proof.
  intros s n.
  destruct (session_session_ok fit_predict runs) as (Hd & Hsuf & _).
  fold s in Hd, Hsuf. split; [apply Hd |]. split.
  - destruct Hsuf as [pre Hpre]. rewrite Hpre, length_app. unfold n. lia.
  - now apply suffix_of_lastn.
Qed.

(** X2.  In every state that a session reaches, no value is below the floor
    of 10: not the current price, not a value of the data history, not a
    value of the window, and not the value of an anomaly record. *)
Theorem values_stay_above_floor (fit_predict : fit_predict_t)
    (runs : list (controls * list tick_input)) :
  let s := session fit_predict runs initial_state in
  10 <= price s /\
  Forall (fun v => 10 <= v) (all_data s) /\
  Forall (fun v => 10 <= v) (items (data s)) /\
  Forall (fun r => 10 <= snd r) (all_anomalies s).
Proof.
  intro s.
  destruct (session_session_ok fit_predict runs)
    as (_ & Hsuf & Hfloor & Hprice & _).
  fold s in Hsuf, Hfloor, Hprice.
  split; [exact Hprice |]. split; [exact Hfloor |].
  split; [now apply (suffix_of_Forall _ _ _ Hsuf) |].
  pose proof (session_history_ok fit_predict runs initial_state
                initial_history_ok) as (_ & Hrec & _).
  fold s in Hrec. apply (Forall_impl _ (P := record_ok (all_data s)));
    [| exact Hrec].
  intros r [_ Hnth]. rewrite Forall_forall in Hfloor.
  apply Hfloor. now apply nth_error_In in Hnth.
Qed.

Lemma log_length_from_records (fit_predict : fit_predict_t)
    (runs : list (controls * list tick_input)) :
  let s := session fit_predict runs initial_state in
  length (anomaly_log s) = Nat.min 50 (length (all_anomalies s)).
Proof.
  intro s.
  destruct (session_session_ok fit_predict runs) as (_ & _ & _ & _ & Hlog).
  fold s in Hlog.
  apply (f_equal (@length R)) in Hlog.
  rewrite length_map, length_firstn, length_rev, length_map in Hlog.
  exact Hlog.
Qed.

(** X3.  In every state that a session reaches, the anomaly log has at most
    50 entries, and they carry the values of the most recent 50 anomaly
    records, newest first. *)
Theorem log_holds_latest_records (fit_predict : fit_predict_t)
    (runs : list (controls * list tick_input)) :
  let s := session fit_predict runs initial_state in
  (length (anomaly_log s) <= 50)%nat /\
  length (anomaly_log s) = Nat.min 50 (length (all_anomalies s)) /\
  map snd (anomaly_log s) = firstn 50 (rev (map snd (all_anomalies s))).
Proof.
  intro s.
  destruct (session_session_ok fit_predict runs) as (_ & _ & _ & _ & Hlog).
  fold s in Hlog.
  pose proof (log_length_from_records fit_predict runs) as Hlen.
  cbv zeta in Hlen. fold s in Hlen.
  split; [rewrite Hlen; apply Nat.le_min_l |].
  split; [exact Hlen | exact Hlog].
Qed.

(** ** The buttons *)

Lemma main_loop_not_running (fit_predict : fit_predict_t) (c : controls)
    (inputs : list tick_input) (s : session_state) :
  running s = false -> main_loop fit_predict c inputs s = (Ok tt, s).
Proof.
  intro H. destruct inputs as [| i rest]; [reflexivity |].
  cbn [main_loop]. unfold bind, get. now rewrite H.
Qed.

Lemma deque_new_nil (n : Z) : (0 <= n)%Z -> deque_new [] n = Ok (mkDeque [] n).
Proof.
  intro H. unfold deque_new. now destruct (Z.ltb_spec n 0); [lia |].
Qed.

(** The state after the widgets when Reset is pressed. *)
Lemma sidebar_buttons_reset (c : controls) (s : session_state) :
  reset_button c = true ->
  sidebar_buttons c s
  = (Ok tt, mkState false (clear (data s)) [] 100.0 [] [] 0).
Proof.
  intro H. unfold sidebar_buttons. rewrite H.
  destruct (start_button c), (stop_button c); reflexivity.
Qed.

(** X4.  A run of the script in which Reset is pressed ends, whatever the
    state before it and whatever the other buttons, in the state of a fresh
    session with the window at the selected size: empty window, empty data
    history, no anomaly record, empty log, price 100, time step 0, not
    running; and no iteration of the loop takes place in that run. *)
Theorem reset_gives_fresh_state (fit_predict : fit_predict_t) (c : controls)
    (inputs : list tick_input) (s : session_state)
    (Hreset : reset_button c = true)
    (Hsize : (0 <= window_size c)%Z) :
  script fit_predict c inputs s
  = (Ok tt, set_data (mkDeque [] (window_size c)) initial_state).
Proof.
  unfold script. unfold bind at 1.
  rewrite (sidebar_buttons_reset c s Hreset).
  unfold bind at 1.
  assert (resize (window_size c)
            (mkState false (clear (data s)) [] 100.0 [] [] 0)
          = (Ok tt, set_data (mkDeque [] (window_size c)) initial_state))
    as Hresize.
  { unfold resize, bind, get, lift. cbn [data clear maxlen items].
    destruct (Z.eqb_spec (window_size c) (maxlen (data s))) as [Heq | Hne];
      cbn [negb].
    - now rewrite Heq.
    - now rewrite (deque_new_nil _ Hsize). }
  rewrite Hresize. now apply main_loop_not_running.
Qed.

Lemma reset_gives_fresh_state_witness :
  let c := mkControls true false true (Z_Score 3) 20 in
  let s := snd (script checked_fit_predict demo_controls
                  (repeat quiet 9 ++ [jump]) initial_state) in
  (reset_button c = true /\ (0 <= window_size c)%Z) /\
  script checked_fit_predict c [quiet; jump] s
  = (Ok tt, set_data (mkDeque [] 20) initial_state).
Proof.
  intros c s. split.
  - split; [reflexivity | cbn; lia].
  - apply (reset_gives_fresh_state checked_fit_predict c [quiet; jump] s);
      [reflexivity | cbn; lia].
Defined.

(** The state after the widgets when Stop is pressed and Reset is not. *)
Lemma sidebar_buttons_stop (c : controls) (s : session_state) :
  stop_button c = true -> reset_button c = false ->
  sidebar_buttons c s = (Ok tt, set_running false s).
Proof.
  intros H1 H2. unfold sidebar_buttons. rewrite H1, H2.
  destruct (start_button c); reflexivity.
Qed.

Lemma resize_keeps_rest (n : Z) (s : session_state) :
  let s' := snd (resize n s) in
  running s' = running s /\ anomaly_log s' = anomaly_log s /\
  price s' = price s /\ all_data s' = all_data s /\
  all_anomalies s' = all_anomalies s /\ time_step s' = time_step s.
Proof.
  unfold resize, bind, get, lift.
  destruct (negb (n =? maxlen (data s))%Z); [| now repeat split].
  destruct (deque_new (items (data s)) n); now repeat split.
Qed.

(** X5.  A run of the script in which Stop is pressed (and Reset is not)
    executes no iteration of the loop, also when Start is pressed with it:
    the session is left not running, and the price, the data history, the
    anomaly records, the log and the time step are those of before the
    run. *)
Theorem stop_halts_the_loop (fit_predict : fit_predict_t) (c : controls)
    (inputs : list tick_input) (s : session_state)
    (Hstop : stop_button c = true)
    (Hreset : reset_button c = false) :
  let s' := snd (script fit_predict c inputs s) in
  script fit_predict c inputs s = script fit_predict c [] s /\
  running s' = false /\
  price s' = price s /\ all_data s' = all_data s /\
  all_anomalies s' = all_anomalies s /\ anomaly_log s' = anomaly_log s /\
  time_step s' = time_step s.
Proof.
  assert (forall l, script fit_predict c l s
                    = match resize (window_size c) (set_running false s) with
                      | (Ok _, t) => (Ok tt, t)
                      | (Raise e, t) => (Raise e, t)
                      end) as Hscript.
  { intro l. unfold script. unfold bind at 1.
    rewrite (sidebar_buttons_stop c s Hstop Hreset). unfold bind at 1.
    pose proof (resize_keeps_rest (window_size c) (set_running false s))
      as (Hrun & _).
    destruct (resize (window_size c) (set_running false s)) as [[u | e] t];
      [| reflexivity].
    cbn [snd] in Hrun. now apply main_loop_not_running. }
  intro s'. subst s'. split; [now rewrite !Hscript |].
  rewrite Hscript.
  pose proof (resize_keeps_rest (window_size c) (set_running false s))
    as (H1 & H2 & H3 & H4 & H5 & H6).
  destruct (resize (window_size c) (set_running false s)) as [[u | e] t];
    cbn [snd] in *; repeat split; assumption.
Qed.

Lemma stop_halts_the_loop_witness :
  let c := mkControls true true false (Z_Score 3) 100 in
  (stop_button c = true /\ reset_button c = false) /\
  script checked_fit_predict c [quiet; jump] initial_state
  = script checked_fit_predict c [] initial_state.
Proof.
  intro c. split.
  - split; reflexivity.
  - apply (stop_halts_the_loop checked_fit_predict c [quiet; jump]
             initial_state); reflexivity.
Defined.

(** ** Runs with a statistical detector *)

Lemma zscore_length (series : list R) (threshold : R) :
  length (detect_anomalies_zscore series threshold) = length series.
Proof.
  unfold detect_anomalies_zscore.
  destruct (length series <? 2)%nat;
    [apply repeat_length | now rewrite !length_map].
Qed.

Lemma mad_length (series : list R) (threshold : R) :
  length (detect_anomalies_mad series threshold) = length series.
Proof.
  unfold detect_anomalies_mad.
  destruct (length series <? 2)%nat;
    [apply repeat_length | now rewrite !length_map].
Qed.

Lemma run_detector_statistical (fit_predict : fit_predict_t) (m : method_t)
    (series : list R) :
  is_statistical m = true ->
  exists anomalies,
    run_detector fit_predict m series = Ok anomalies /\
    length anomalies = length series.
Proof.
  destruct m as [t | t | k]; intro H; try discriminate H; eexists;
    (split; [reflexivity |]); [apply zscore_length | apply mad_length].
Qed.

Lemma advance_keeps_running (i : tick_input) (s : session_state) :
  running (snd (advance i s)) = running s /\
  maxlen (data (snd (advance i s))) = maxlen (data s).
Proof. rewrite advance_state. split; reflexivity. Qed.

(** One iteration with a statistical detector and a window size of at least
    1 does not raise. *)
Lemma loop_body_statistical (fit_predict : fit_predict_t) (c : controls)
    (i : tick_input) (s : session_state) :
  is_statistical (method c) = true -> (1 <= window_size c)%Z ->
  let s' := snd (loop_body fit_predict c i s) in
  exists anomalies,
    fst (loop_body fit_predict c i s) = Ok anomalies /\
    running s' = running s /\
    maxlen (data s') = maxlen (data s) /\
    time_step s' = (time_step s + 1)%Z /\
    length (all_data s') = S (length (all_data s)).
Proof.
  intros Hstat Hsize. rewrite loop_body_unfold.
  set (s1 := snd (advance i s)).
  assert (running s1 = running s /\ maxlen (data s1) = maxlen (data s) /\
          time_step s1 = (time_step s + 1)%Z /\
          length (all_data s1) = S (length (all_data s))) as Hs1.
  { unfold s1. rewrite advance_state. cbn [running data time_step all_data].
    rewrite length_app. cbn [length maxlen append]. repeat split. lia. }
  destruct (Z.ltb_spec (Z.of_nat (length (items (data s1)))) (window_size c))
    as [Hshort | Hfull].
  { rewrite detect_newest_skip by exact Hshort. now exists None. }
  rewrite detect_newest_run by exact Hfull.
  destruct (run_detector_statistical fit_predict (method c)
              (items (data s1)) Hstat) as (anomalies & Hrun & Hlen).
  rewrite Hrun.
  destruct (index_last_nonempty anomalies) as [b Hb]; [lia |].
  rewrite Hb. destruct b; [| now exists (Some anomalies)].
  destruct (index_last_nonempty (items (data s1))) as [x Hx]; [lia |].
  rewrite Hx. now exists (Some anomalies).
Qed.

Lemma main_loop_statistical (fit_predict : fit_predict_t) (c : controls)
    (inputs : list tick_input) (s : session_state) :
  is_statistical (method c) = true -> (1 <= window_size c)%Z ->
  running s = true ->
  let s' := snd (main_loop fit_predict c inputs s) in
  fst (main_loop fit_predict c inputs s) = Ok tt /\
  running s' = true /\
  maxlen (data s') = maxlen (data s) /\
  time_step s' = (time_step s + Z.of_nat (length inputs))%Z /\
  length (all_data s') = (length (all_data s) + length inputs)%nat.
Proof.
  intros Hstat Hsize. revert s.
  induction inputs as [| i rest IH]; intros s Hrun.
  - cbn. repeat split; try assumption; lia.
  - destruct (loop_body_statistical fit_predict c i s Hstat Hsize)
      as (a & Hfst & H1 & H2 & H3 & H4).
    assert (main_loop fit_predict c (i :: rest) s
            = main_loop fit_predict c rest
                (snd (loop_body fit_predict c i s))) as Hstep.
    { cbn [main_loop]. unfold bind at 1, get at 1. rewrite Hrun.
      unfold bind at 1.
      destruct (loop_body fit_predict c i s) as [r t]. cbn [fst snd] in *.
      now subst r. }
    rewrite Hstep.
    destruct (IH (snd (loop_body fit_predict c i s)))
      as (K0 & K1 & K2 & K3 & K4); [now rewrite H1 |].
    cbn [length]. split; [exact K0 |]. split; [exact K1 |].
    split; [now rewrite K2 |]. split; lia.
Qed.

(** The run of the script after the widgets. *)
Lemma script_after_buttons (fit_predict : fit_predict_t) (c : controls)
    (inputs : list tick_input) (s : session_state) :
  (0 <= window_size c)%Z ->
  script fit_predict c inputs s
  = main_loop fit_predict c inputs
      (snd (resize (window_size c) (snd (sidebar_buttons c s)))).
Proof.
  intro Hsize. unfold script. unfold bind at 1.
  pose proof (sidebar_buttons_runs c s) as Hb.
  destruct (sidebar_buttons c s) as [rb sb]. cbn [fst snd] in *. subst rb.
  unfold bind at 1.
  destruct (resize_runs (window_size c) sb Hsize) as [Hr _].
  destruct (resize (window_size c) sb) as [rr sr]. cbn [fst snd] in *.
  now subst rr.
Qed.

(** X6.  With the Z-Score or the MAD detector selected and the window size in
    the range of its slider, a run of the script does not raise, whatever
    the state it starts from and whatever is drawn; when the session is
    running after the buttons, every iteration of the run adds one value to
    the data history and one to the time step. *)
Theorem statistical_run_does_not_raise (fit_predict : fit_predict_t)
    (c : controls) (inputs : list tick_input) (s : session_state)
    (Hstat : is_statistical (method c) = true)
    (Hrange : window_size_in_range c) :
  let after_buttons := snd (sidebar_buttons c s) in
  let s' := snd (script fit_predict c inputs s) in
  fst (script fit_predict c inputs s) = Ok tt /\
  (running after_buttons = true ->
   running s' = true /\
   time_step s' = (time_step after_buttons + Z.of_nat (length inputs))%Z /\
   length (all_data s')
   = (length (all_data after_buttons) + length inputs)%nat).
Proof.
  intros sb s'. subst s'. destruct Hrange as [Hlo Hhi].
  rewrite script_after_buttons by lia. fold sb.
  pose proof (resize_keeps_rest (window_size c) sb)
    as (Hrun & _ & _ & Hdata & _ & Htime).
  set (sr := snd (resize (window_size c) sb)) in *.
  destruct (running sr) eqn:Hr.
  - destruct (main_loop_statistical fit_predict c inputs sr Hstat)
      as (K0 & K1 & _ & K3 & K4); [lia | exact Hr |].
    split; [exact K0 |]. intros _.
    rewrite <- Hdata, <- Htime. repeat split; assumption.
  - rewrite main_loop_not_running by exact Hr.
    split; [reflexivity |]. intro Hsb. rewrite Hsb in Hrun. discriminate.
Qed.

Lemma statistical_run_does_not_raise_witness :
  (is_statistical (method demo_controls) = true /\
   window_size_in_range demo_controls) /\
  fst (script checked_fit_predict demo_controls [quiet; jump] initial_state)
  = Ok tt.
Proof.
  assert (window_size_in_range demo_controls) as H.
  { unfold window_size_in_range, slider_range. cbn. lia. }
  split.
  - split; [reflexivity | exact H].
  - apply (statistical_run_does_not_raise checked_fit_predict demo_controls
             [quiet; jump] initial_state); [reflexivity | exact H].
Defined.

(** ** Splitting a run *)

(** One step of the loop. *)
Lemma main_loop_cons (fit_predict : fit_predict_t) (c : controls)
    (i : tick_input) (rest : list tick_input) (s : session_state) :
  main_loop fit_predict c (i :: rest) s
  = if running s
    then match loop_body fit_predict c i s with
         | (Ok _, t) => main_loop fit_predict c rest t
         | (Raise e, t) => (Raise e, t)
         end
    else (Ok tt, s).
Proof.
  cbn [main_loop]. unfold bind, get. destruct (running s); reflexivity.
Qed.

Lemma main_loop_app (fit_predict : fit_predict_t) (c : controls)
    (a b : list tick_input) (s : session_state) :
  main_loop fit_predict c (a ++ b) s
  = match main_loop fit_predict c a s with
    | (Ok _, t) => main_loop fit_predict c b t
    | (Raise e, t) => (Raise e, t)
    end.
Proof.
  revert s. induction a as [| i rest IH]; intro s; [reflexivity |].
  cbn [app]. rewrite !main_loop_cons.
  destruct (running s) eqn:Hrun.
  - destruct (loop_body fit_predict c i s) as [[r | e] t]; [| reflexivity].
    apply IH.
  - now rewrite main_loop_not_running.
Qed.

Lemma main_loop_same_selection (fit_predict : fit_predict_t) (c : controls)
    (inputs : list tick_input) (s : session_state) :
  main_loop fit_predict (same_selection c) inputs s
  = main_loop fit_predict c inputs s.
Proof.
  revert s. induction inputs as [| i rest IH]; intro s; [reflexivity |].
  rewrite !main_loop_cons.
  change (loop_body fit_predict (same_selection c) i s)
    with (loop_body fit_predict c i s).
  destruct (running s); [| reflexivity].
  destruct (loop_body fit_predict c i s) as [[r | e] t]; [| reflexivity].
  apply IH.
Qed.

Lemma loop_body_keeps_maxlen (fit_predict : fit_predict_t) (c : controls)
    (i : tick_input) (s : session_state) :
  maxlen (data (snd (loop_body fit_predict c i s))) = maxlen (data s).
Proof.
  rewrite loop_body_unfold.
  set (s1 := snd (advance i s)).
  assert (maxlen (data s1) = maxlen (data s)) as H1 by reflexivity.
  destruct (Z.ltb_spec (Z.of_nat (length (items (data s1)))) (window_size c))
    as [Hshort | Hfull].
  { now rewrite detect_newest_skip. }
  rewrite detect_newest_run by exact Hfull.
  destruct (run_detector fit_predict (method c) (items (data s1)))
    as [anomalies | e]; [| exact H1].
  destruct (index_last anomalies) as [[|] | e]; try exact H1.
  destruct (index_last (items (data s1))) as [x | e]; exact H1.
Qed.

Lemma main_loop_keeps_maxlen (fit_predict : fit_predict_t) (c : controls)
    (inputs : list tick_input) (s : session_state) :
  maxlen (data (snd (main_loop fit_predict c inputs s))) = maxlen (data s).
Proof.
  apply (main_loop_preserves fit_predict
           (fun t => maxlen (data t) = maxlen (data s))); [| reflexivity].
  intros c' i t Ht. now rewrite loop_body_keeps_maxlen.
Qed.

(** X7.  An interaction that presses no button and changes no selection does
    not change the course of a session: when a run of the script has not
    raised, running the script again on the state that it left, for further
    iterations, gives the result of one run with all the iterations. *)
Theorem rerun_continues_the_run (fit_predict : fit_predict_t) (c : controls)
    (a b : list tick_input) (s : session_state)
    (Hsize : (0 <= window_size c)%Z)
    (Hok : fst (script fit_predict c a s) = Ok tt) :
  script fit_predict (same_selection c) b (snd (script fit_predict c a s))
  = script fit_predict c (a ++ b) s.
Proof.
  rewrite (script_after_buttons fit_predict c (a ++ b) s Hsize).
  rewrite (script_after_buttons fit_predict c a s Hsize) in *.
  set (sr := snd (resize (window_size c) (snd (sidebar_buttons c s)))) in *.
  assert (maxlen (data sr) = window_size c) as Hmax.
  { unfold sr. now apply resize_runs. }
  rewrite main_loop_app.
  pose proof (main_loop_keeps_maxlen fit_predict c a sr) as Hkeep.
  destruct (main_loop fit_predict c a sr) as [[u | e] t];
    [| discriminate Hok].
  cbn [snd] in *.
  rewrite (script_after_buttons fit_predict (same_selection c) b t)
    by exact Hsize.
  rewrite main_loop_same_selection.
  change (snd (sidebar_buttons (same_selection c) t)) with t.
  change (window_size (same_selection c)) with (window_size c).
  assert (snd (resize (window_size c) t) = t) as ->; [| reflexivity].
  unfold resize, bind, get. rewrite Hkeep, Hmax, Z.eqb_refl. reflexivity.
Qed.

Lemma rerun_continues_the_run_witness :
  ((0 <= window_size demo_controls)%Z /\
   fst (script checked_fit_predict demo_controls [quiet] initial_state)
   = Ok tt) /\
  script checked_fit_predict (same_selection demo_controls) [jump]
    (snd (script checked_fit_predict demo_controls [quiet] initial_state))
  = script checked_fit_predict demo_controls ([quiet] ++ [jump])
      initial_state.
Proof.
  split.
  - split; [cbn; lia | reflexivity].
  - apply (rerun_continues_the_run checked_fit_predict demo_controls
             [quiet] [jump] initial_state); [cbn; lia | reflexivity].
Defined.

(** ** The window size of a session *)





(** ** The dashboard *)

Lemma range_length (n : Z) : length (range n) = Z.to_nat n.
Proof. unfold range. now rewrite length_map, length_seq. Qed.

Lemma range_nth_error (n : Z) (k : nat) :
  (k < Z.to_nat n)%nat -> nth_error (range n) k = Some (Z.of_nat k).
Proof.
  intro H. unfold range. rewrite nth_error_map.
  rewrite (nth_error_nth' _ 0%nat) by now rewrite length_seq.
  now rewrite seq_nth.
Qed.

Lemma split_nth_error {A B : Type} (l : list (A * B)) (k : nat) (a : A)
    (b : B) :
  nth_error (fst (List.split l)) k = Some a ->
  nth_error (snd (List.split l)) k = Some b ->
  nth_error l k = Some (a, b).
Proof.
  revert k. induction l as [| [x y] t IH]; intros k Ha Hb.
  - destruct k; discriminate Ha.
  - cbn [List.split] in Ha, Hb. destruct (List.split t) as [xs ys].
    cbn [fst snd] in *. destruct k as [| k]; cbn [nth_error] in *.
    + injection Ha as <-. injection Hb as <-. reflexivity.
    + now apply IH.
Qed.

(** X8.  In every state that a session reaches, the chart that
    [draw_dashboard] hands over is consistent: the value line has one time
    index per value, the indices being 0, 1, 2, ...; the anomaly markers are
    present exactly when there is an anomaly record, they are the records
    split into indices and values, and every marker lies on the value line;
    and the log shows its entries exactly when the chart has markers. *)
Theorem dashboard_is_consistent (fit_predict : fit_predict_t)
    (runs : list (controls * list tick_input)) :
  let s := session fit_predict runs initial_state in
  let fig := fst (draw_dashboard s) in
  length (value_x fig) = length (value_y fig) /\
  (forall k, (k < length (value_y fig))%nat ->
     nth_error (value_x fig) k = Some (Z.of_nat k)) /\
  (anomaly_markers fig = None <-> all_anomalies s = []) /\
  (snd (draw_dashboard s) = NoAnomaliesYet <-> anomaly_markers fig = None) /\
  (forall xs ys, anomaly_markers fig = Some (xs, ys) ->
     combine xs ys = all_anomalies s /\
     forall k i v, nth_error xs k = Some i -> nth_error ys k = Some v ->
       nth_error (value_x fig) (Z.to_nat i) = Some i /\
       nth_error (value_y fig) (Z.to_nat i) = Some v).
Proof.
  intros s fig.
  pose proof (session_history_ok fit_predict runs initial_state
                initial_history_ok) as (Htime & Hrec & _).
  fold s in Htime, Hrec.
  pose proof (log_length_from_records fit_predict runs) as Hlen.
  cbv zeta in Hlen. fold s in Hlen.
  assert (length (value_x fig) = length (value_y fig)) as Hxy.
  { unfold fig, draw_dashboard. cbn [fst value_x value_y].
    rewrite range_length, Htime. apply Nat2Z.id. }
  assert (forall k, (k < length (value_y fig))%nat ->
            nth_error (value_x fig) k = Some (Z.of_nat k)) as Hx.
  { intros k Hk. rewrite <- Hxy in Hk. unfold fig, draw_dashboard in *.
    cbn [fst value_x] in *. rewrite range_length in Hk.
    now apply range_nth_error. }
  split; [exact Hxy |]. split; [exact Hx |].
  split; [| split].
  - unfold fig, draw_dashboard. cbn [fst anomaly_markers].
    destruct (all_anomalies s); split; intro H; try reflexivity;
      discriminate H.
  - unfold fig, draw_dashboard. cbn [fst snd anomaly_markers].
    destruct (anomaly_log s) as [| e l], (all_anomalies s) as [| r t];
      cbn [length] in Hlen; split; intro H; try reflexivity;
      try discriminate H; try discriminate Hlen.
  - intros xs ys Hm. unfold fig, draw_dashboard in Hm.
    cbn [fst anomaly_markers] in Hm.
    assert (List.split (all_anomalies s) = (xs, ys)) as Hsplit.
    { destruct (all_anomalies s); [discriminate Hm | now injection Hm]. }
    split.
    + pose proof (split_combine (all_anomalies s)) as Hc.
      rewrite Hsplit in Hc. exact (Hc xs ys eq_refl).
    + intros k i v Hi Hv.
      assert (nth_error (all_anomalies s) k = Some (i, v)) as Hk.
      { apply split_nth_error; now rewrite Hsplit. }
      apply nth_error_In in Hk. rewrite Forall_forall in Hrec.
      destruct (Hrec (i, v) Hk) as [Hpos Hnth]. cbn [fst snd] in *.
      split; [| exact Hnth].
      rewrite Hx; [f_equal; lia |].
      apply nth_error_Some. unfold fig, draw_dashboard. cbn [fst value_y].
      now rewrite Hnth.
Qed.

(** ** More on the window *)

Lemma lastn_lastn {A : Type} (n m : nat) (l : list A) :
  lastn n (lastn m l) = lastn (Nat.min n m) l.
Proof.
  unfold lastn. rewrite length_skipn, skipn_skipn. f_equal. lia.
Qed.

(** X9.  Two resizes in a row keep the most recent min(a, b) elements and
    leave the capacity at the second size: what the first resize has evicted
    is not brought back by a larger second one, so that a detour by a
    smaller capacity loses data that a direct resize keeps. *)
Theorem resize_twice (d : deque) (a b : Z)
    (Hd : deque_ok d) (Ha : (0 <= a)%Z) (Hb : (0 <= b)%Z) :
  exists d',
    apply_ops [Resize a; Resize b] d = Ok d' /\
    maxlen d' = b /\
    items d' = lastn (Nat.min (Z.to_nat a) (Z.to_nat b)) (items d) /\
    (length (items d') <= length (lastn (Z.to_nat b) (items d)))%nat.
Proof.
  destruct (resize_op_lastn d a Hd Ha) as (d1 & Hop1 & Hmax1 & Hitems1).
  pose proof (apply_op_ok _ _ _ Hd Hop1) as Hd1.
  destruct (resize_op_lastn d1 b Hd1 Hb) as (d2 & Hop2 & Hmax2 & Hitems2).
  exists d2. cbn [apply_ops]. rewrite Hop1, Hop2.
  split; [reflexivity |]. split; [exact Hmax2 |].
  assert (items d2 = lastn (Nat.min (Z.to_nat a) (Z.to_nat b)) (items d))
    as Hitems.
  { rewrite Hitems2, Hitems1, lastn_lastn. f_equal. lia. }
  split; [exact Hitems |].
  rewrite Hitems, !lastn_length. lia.
Qed.

Lemma resize_twice_witness :
  (deque_ok (mkDeque [1; 2; 3; 4] 4) /\ (0 <= 2)%Z /\ (0 <= 4)%Z) /\
  apply_ops [Resize 2; Resize 4] (mkDeque [1; 2; 3; 4] 4)
  = Ok (mkDeque [3; 4] 4).
Proof.
  assert (deque_ok (mkDeque [1; 2; 3; 4] 4)) as H by (split; cbn; lia).
  split.
  - split; [exact H | split; lia].
  - destruct (resize_twice (mkDeque [1; 2; 3; 4] 4) 2 4 H)
      as (d' & Hrun & _); [lia | lia |].
    rewrite Hrun. f_equal. cbv in Hrun. now injection Hrun.
Defined.

(** X10.  After a push onto a window of capacity at least 1, the newest
    element of the window, the one whose flag the loop reads, is the value
    pushed, and the window is not empty; a push onto a window of capacity 0
    leaves nothing to read. *)
Theorem newest_is_the_pushed_value (x : R) (d : deque)
    (Hd : deque_ok d) :
  ((1 <= maxlen d)%Z ->
   index_last (items (append x d)) = Ok x /\
   (1 <= length (items (append x d)))%nat) /\
  (maxlen d = 0%Z ->
   items (append x d) = [] /\
   index_last (items (append x d)) = Raise IndexError).
Proof.
  destruct Hd as [Hcap Hlen]. split.
  - intro Hpos.
    assert (1 <= length (items (append x d)))%nat as Hne.
    { unfold append. cbn [items]. rewrite length_app. cbn [length].
      destruct (Z.ltb_spec (maxlen d) (Z.of_nat (length (items d) + 1)));
        [| rewrite length_app; cbn [length]; lia].
      destruct (items d) as [| y t]; cbn [length app tl] in *; [lia |].
      rewrite length_app. cbn [length]. lia. }
    split; [| exact Hne].
    destruct (index_last_nonempty _ Hne) as [y Hy].
    rewrite Hy. f_equal. now apply (index_last_append x y d).
  - intro Hzero.
    assert (items d = []) as Hnil.
    { destruct (items d); [reflexivity | cbn [length] in Hlen; lia]. }
    unfold append. rewrite Hnil, Hzero. split; reflexivity.
Qed.

Lemma newest_is_the_pushed_value_witness :
  deque_ok (mkDeque [1; 2] 2) /\
  index_last (items (append 7 (mkDeque [1; 2] 2))) = Ok 7.
Proof.
  assert (deque_ok (mkDeque [1; 2] 2)) as H by (split; cbn; lia).
  split; [exact H |].
  apply (newest_is_the_pushed_value 7 (mkDeque [1; 2] 2) H). cbn. lia.
Defined.

(** ** The threshold *)

Lemma flagged_map_le {A : Type} (f g : A -> bool) (l : list A) :
  (forall x, In x l -> f x = true -> g x = true) ->
  (flagged (map f l) <= flagged (map g l))%nat.
Proof.
  unfold flagged. induction l as [| x t IH]; intro H; [apply Nat.le_refl |].
  cbn [map filter].
  assert (length (filter (fun b => b) (map f t))
          <= length (filter (fun b => b) (map g t)))%nat as Ht.
  { apply IH. intros y Hy. apply H. now right. }
  destruct (f x) eqn:Hf.
  - rewrite (H x (or_introl eq_refl) Hf). cbn [length]. lia.
  - destruct (g x); cbn [length]; lia.
Qed.

Lemma nth_error_map_true {A : Type} (f g : A -> bool) (l : list A) (i : nat) :
  (forall x, f x = true -> g x = true) ->
  nth_error (map f l) i = Some true -> nth_error (map g l) i = Some true.
Proof.
  intros H. rewrite !nth_error_map.
  destruct (nth_error l i) as [x |]; cbn; [| discriminate].
  intro Hf. injection Hf as Hf. now rewrite (H x Hf).
Qed.

Lemma Rgtb_threshold_le (a t1 t2 : R) :
  t1 <= t2 -> Np.Rgtb a t2 = true -> Np.Rgtb a t1 = true.
Proof. intros H. rewrite !Rgtb_true_iff. lra. Qed.

(** X11.  Lowering the threshold never removes a flag: an element that the
    Z-Score detector (or the MAD detector) flags at a threshold is flagged at
    every lower threshold, so the number of flags does not grow with the
    threshold. *)
Theorem lower_threshold_keeps_flags (series : list R) (t1 t2 : R)
    (Hle : t1 <= t2) :
  (forall i, nth_error (detect_anomalies_zscore series t2) i = Some true ->
             nth_error (detect_anomalies_zscore series t1) i = Some true) /\
  (forall i, nth_error (detect_anomalies_mad series t2) i = Some true ->
             nth_error (detect_anomalies_mad series t1) i = Some true) /\
  (flagged (detect_anomalies_zscore series t2)
   <= flagged (detect_anomalies_zscore series t1))%nat /\
  (flagged (detect_anomalies_mad series t2)
   <= flagged (detect_anomalies_mad series t1))%nat.
Proof.
  destruct (Nat.lt_ge_cases (length series) 2) as [Hshort | Hlong].
  - unfold detect_anomalies_zscore, detect_anomalies_mad.
    rewrite (short_series series Hshort). repeat split; try lia; intros i H;
      exact H.
  - rewrite !(zscore_unfold series _ Hlong), !(mad_unfold series _ Hlong).
    repeat split.
    + intro i. apply nth_error_map_true. intro x.
      now apply Rgtb_threshold_le.
    + intro i. apply nth_error_map_true. intro x.
      now apply Rgtb_threshold_le.
    + apply flagged_map_le. intros x _. now apply Rgtb_threshold_le.
    + apply flagged_map_le. intros x _. now apply Rgtb_threshold_le.
Qed.

Lemma lower_threshold_keeps_flags_witness :
  1.9 <= 3 /\
  (flagged (detect_anomalies_zscore spike 3%R)
   <= flagged (detect_anomalies_zscore spike 1.9%R))%nat.
Proof.
  split; [lra |].
  apply (lower_threshold_keeps_flags spike 1.9 3). lra.
Defined.

(** ** Counting in a sorted series *)














(** ** What the detector is given, and what a failure leaves *)

Lemma run_detector_nil (fit_predict : fit_predict_t) (m : method_t) :
  run_detector fit_predict m [] = Ok [].
Proof. destruct m; reflexivity. Qed.

(** X18.  When the window has the capacity of the selected window size, as
    it has after the resize of the script, an iteration that runs a detector
    runs it on exactly [window_size] values, the full window with the value
    just pushed last; the result that the iteration reads is the result of
    the selected detector on those values. *)
Theorem detector_sees_full_window (fit_predict : fit_predict_t)
    (c : controls) (i : tick_input) (s : session_state)
    (anomalies : list bool)
    (Hd : deque_ok (data s))
    (Hmax : maxlen (data s) = window_size c)
    (Hrun : fst (loop_body fit_predict c i s) = Ok (Some anomalies)) :
  let series := items (data (snd (advance i s))) in
  Z.of_nat (length series) = window_size c /\
  run_detector fit_predict (method c) series = Ok anomalies /\
  index_last series = Ok (price (snd (advance i s))).
Proof.
  intro series. rewrite loop_body_unfold in Hrun.
  set (s1 := snd (advance i s)) in *.
  assert (deque_ok (data s1)) as Hd1.
  { unfold s1. rewrite advance_state. cbn [data]. now apply append_ok. }
  assert (maxlen (data s1) = window_size c) as Hmax1 by exact Hmax.
  destruct (Z.ltb_spec (Z.of_nat (length (items (data s1)))) (window_size c))
    as [Hshort | Hfull].
  { rewrite detect_newest_skip in Hrun by exact Hshort. discriminate Hrun. }
  assert (Z.of_nat (length series) = window_size c) as Hlen.
  { destruct Hd1 as [_ Hle]. unfold series. lia. }
  split; [exact Hlen |].
  rewrite detect_newest_run in Hrun by exact Hfull. fold series in Hrun.
  assert (1 <= length series)%nat as Hne.
  { destruct series as [| y t]; [| cbn; lia]. exfalso.
    rewrite run_detector_nil in Hrun. discriminate Hrun. }
  assert (index_last series = Ok (price s1)) as Hlast.
  { destruct (index_last_nonempty series Hne) as [y Hy]. rewrite Hy. f_equal.
    unfold series, s1 in Hy. rewrite advance_state in Hy.
    cbn [data] in Hy. apply index_last_append in Hy. rewrite Hy.
    unfold s1. rewrite advance_state. reflexivity. }
  split; [| exact Hlast].
  destruct (run_detector fit_predict (method c) series) as [a | e];
    [| discriminate Hrun].
  rewrite Hlast in Hrun.
  destruct (index_last a) as [[|] | e']; cbn [fst] in Hrun;
    try discriminate Hrun; now injection Hrun as ->.
Qed.

Lemma detector_sees_full_window_witness :
  let c := mkControls true false false (Z_Score 3) 1 in
  let s := set_data (mkDeque [] 1) initial_state in
  (deque_ok (data s) /\ maxlen (data s) = window_size c /\
   fst (loop_body checked_fit_predict c quiet s) = Ok (Some [false])) /\
  Z.of_nat (length (items (data (snd (advance quiet s))))) = window_size c.
Proof.
  intros c s.
  assert (deque_ok (data s)) as Hd by (split; cbn; lia).
  split.
  - split; [exact Hd | split; reflexivity].
  - apply (detector_sees_full_window checked_fit_predict c quiet s [false]);
      [exact Hd | reflexivity | reflexivity].
Defined.

(** X19.  An iteration that raises (a failure of the library call of the
    Isolation Forest, or an empty detection result) has already pushed its
    value: the state it leaves is the state after the push, with the value
    in the window and in the data history and the time step advanced, and
    with no anomaly record and no log entry added; and the loop ends there,
    the iterations after it do not take place. *)
Theorem failed_iteration_keeps_the_push (fit_predict : fit_predict_t)
    (c : controls) (i : tick_input) (rest : list tick_input)
    (s : session_state) (e : exn)
    (Hrunning : running s = true)
    (Hfail : fst (loop_body fit_predict c i s) = Raise e) :
  let s1 := snd (advance i s) in
  snd (loop_body fit_predict c i s) = s1 /\
  all_data s1 = all_data s ++ [price s1] /\
  time_step s1 = (time_step s + 1)%Z /\
  all_anomalies s1 = all_anomalies s /\
  anomaly_log s1 = anomaly_log s /\
  main_loop fit_predict c (i :: rest) s = (Raise e, s1).
Proof.
  intro s1.
  assert (snd (loop_body fit_predict c i s) = s1) as Hstate.
  { rewrite loop_body_unfold in *. fold s1 in Hfail. fold s1.
    destruct (Z.ltb_spec (Z.of_nat (length (items (data s1))))
                (window_size c)) as [Hshort | Hfull].
    { rewrite detect_newest_skip in Hfail by exact Hshort.
      discriminate Hfail. }
    rewrite detect_newest_run in * by exact Hfull.
    destruct (run_detector fit_predict (method c) (items (data s1)))
      as [a | e1]; [| reflexivity].
    destruct (index_last a) as [[|] | e2]; try reflexivity;
      try discriminate Hfail.
    destruct (index_last (items (data s1))) as [x | e3];
      [discriminate Hfail | reflexivity]. }
  split; [exact Hstate |].
  split; [unfold s1; rewrite advance_state; reflexivity |].
  split; [unfold s1; rewrite advance_state; reflexivity |].
  split; [reflexivity |]. split; [reflexivity |].
  apply main_loop_stops_on_failure; [exact Hrunning |].
  destruct (loop_body fit_predict c i s) as [r t]. cbn [fst snd] in *.
  now subst.
Qed.

Lemma checked_fit_predict_out_of_range (X : list R) :
  checked_fit_predict 0.7 X = Raise InvalidParameterError.
Proof.
  unfold checked_fit_predict, Np.Rltb.
  destruct (Rlt_dec 0 0.7); [| exfalso; lra].
  destruct (Rlt_dec 0.5 0.7); [reflexivity | exfalso; lra].
Qed.

Lemma failed_iteration_keeps_the_push_witness :
  let c := mkControls true false false (Isolation_Forest 0.7) 1 in
  let s := set_running true (set_data (mkDeque [1] 2) initial_state) in
  (running s = true /\
   fst (loop_body checked_fit_predict c quiet s)
   = Raise InvalidParameterError) /\
  main_loop checked_fit_predict c [quiet; jump] s
  = (Raise InvalidParameterError, snd (advance quiet s)).
Proof.
  intros c s.
  assert (fst (loop_body checked_fit_predict c quiet s)
          = Raise InvalidParameterError) as Hfail.
  { assert (exists p, items (data (snd (advance quiet s))) = [1; p])
      as [p Hser].
    { eexists. rewrite advance_state. reflexivity. }
    rewrite loop_body_unfold, detect_newest_run by (rewrite Hser; cbn; lia).
    rewrite Hser. change (method c) with (Isolation_Forest 0.7).
    cbn [run_detector]. unfold detect_anomalies_isolation_forest.
    cbn [length Nat.ltb Nat.leb].
    now rewrite checked_fit_predict_out_of_range. }
  split.
  - split; [reflexivity | exact Hfail].
  - apply (failed_iteration_keeps_the_push checked_fit_predict c quiet
             [jump] s InvalidParameterError); [reflexivity | exact Hfail].
Defined.
